(** * camera_watchdog: a shallow embedding of [camera_watchdog.py]

    The watchdog maps the camera device paths of a configuration file to
    USB bus identifiers, keeps the mapping in a JSON cache file, and
    rebinds the USB driver of every camera whose device node is gone.

    Text is modelled as sequences of code points below 256 ([ascii]);
    Python's [\d], [\s] and [str.strip] are given on that range.
    The cache dictionary is a [gmap string string]; the camera map, which
    the main loop iterates, keeps its insertion order.  Everything the
    program asks of the operating system (file probes, [udevadm], the
    shell, the cache file, the log) goes through one record of oracles
    and one trace of events; a world is a snapshot, so a probe gives the
    same answer each time it is asked during one run. *)

From Stdlib Require Import Ascii ZArith.
From Stdlib Require String.
From stdpp Require Import gmap strings list fin_maps.

(** ** Python's [re] on the two patterns of the program *)

Module Re.

Abbreviation text := (list ascii).

(** [\d] on code points below 256: the ten decimal digits. *)
Definition is_digit (c : ascii) : bool :=
  let n := nat_of_ascii c in (48 <=? n)%nat && (n <=? 57)%nat.

(** [\s] (and [str.isspace]) on code points below 256. *)
Definition is_space (c : ascii) : bool :=
  let n := nat_of_ascii c in
  ((9 <=? n)%nat && (n <=? 13)%nat) || ((28 <=? n)%nat && (n <=? 32)%nat)
  || (n =? 133)%nat || (n =? 160)%nat.

(** [[\d.]] *)
Definition is_digit_or_dot (c : ascii) : bool :=
  is_digit c || Ascii.eqb c "."%char.

(** [[^\s!]] *)
Definition is_path_char (c : ascii) : bool :=
  negb (is_space c || Ascii.eqb c "!"%char).

(** The patterns of the program are sequences of literal characters and
    greedy [+] repetitions of a character class. *)
Inductive item :=
| Chr (c : ascii)
| Many1 (cls : ascii -> bool).

(** Length of the longest prefix of [s] inside the class. *)
Fixpoint span_len (cls : ascii -> bool) (s : text) : nat :=
  match s with
  | a :: s' => if cls a then S (span_len cls s') else O
  | [] => O
  end.

(** A greedy [+] that took a run of [k] characters of [s]: try the rest
    of the pattern after them, and give characters back one by one
    (never below one) while it fails. *)
Fixpoint backoff (k : nat) (s : text) (rest : text -> option (list text))
  : option (list text) :=
  match k with
  | O => None
  | S k' =>
      match rest (drop k s) with
      | Some ps => Some (take k s :: ps)
      | None => backoff k' s rest
      end
  end.

(** Backtracking match of the items at the head of [s], as [re] does it.
    The result is the text taken by each item. *)
Fixpoint match_here (its : list item) (s : text) : option (list text) :=
  match its with
  | [] => Some []
  | Chr c :: r =>
      match s with
      | a :: s' =>
          if Ascii.eqb a c then cons [a] <$> match_here r s' else None
      | [] => None
      end
  | Many1 cls :: r => backoff (span_len cls s) s (match_here r)
  end.

(** [re.search]: the first start position, from the left, at which the
    pattern matches; [pos] counts the characters already skipped. *)
Fixpoint search_from (its : list item) (s : text) (pos : nat)
  : option (nat * list text) :=
  match match_here its s with
  | Some ps => Some (pos, ps)
  | None =>
      match s with
      | [] => None
      | _ :: s' => search_from its s' (S pos)
      end
  end.

Definition search (its : list item) (s : text) : option (nat * list text) :=
  search_from its s 0.

Definition lit (s : string) : list item := Chr <$> String.list_ascii_of_string s.

(** [r"(\d+-[\d.]+:\d+\.\d+)"] *)
Definition bus_id_pattern : list item :=
  [Many1 is_digit; Chr "-"; Many1 is_digit_or_dot; Chr ":";
   Many1 is_digit; Chr "."; Many1 is_digit].

(** [r"device=([^\s!]+)"]: seven literal characters, then group 1. *)
Definition device_pattern : list item :=
  lit "device=" ++ [Many1 is_path_char].

(** [re.search(r"(\d+-[\d.]+:\d+\.\d+)", path)] followed by
    [match.group(1)]; the group is the whole match. *)
Definition search_bus_id (path : text) : option text :=
  (λ r, concat r.2) <$> search bus_id_pattern path.

(** [re.search(r"device=([^\s!]+)", value)] followed by
    [match.group(1)]; the group starts after the seven literals. *)
Definition search_device (value : text) : option text :=
  (λ r, concat (drop 7 r.2)) <$> search device_pattern value.

(** [str.strip()] *)
Fixpoint lstrip (s : text) : text :=
  match s with
  | a :: s' => if is_space a then lstrip s' else s
  | [] => []
  end.

Definition strip (s : text) : text := rev (lstrip (rev (lstrip s))).

(** What it means for a text to match a pattern, read off the pattern
    and independent of the search order. *)
Definition item_ok (it : item) (p : text) : Prop :=
  match it with
  | Chr c => p = [c]
  | Many1 cls => p ≠ [] ∧ Forall (λ a, cls a = true) p
  end.

Definition matches (its : list item) (m : text) : Prop :=
  ∃ ps, Forall2 item_ok its ps ∧ concat ps = m.

(** Every [+] of the pattern, except one that ends it, is followed by a
    literal outside its class: the literal fixes where the run ends. *)
Fixpoint delimited (its : list item) : bool :=
  match its with
  | [] => true
  | Chr _ :: r => delimited r
  | Many1 cls :: r =>
      match r with
      | [] => true
      | Chr c :: _ => negb (cls c) && delimited r
      | Many1 _ :: _ => false
      end
  end.

End Re.

(** ** Exceptions, the operating system and the effect monad *)

(** The exceptions the program can meet, and the classes named in its
    [except] clauses. *)
Inductive exn :=
| CalledProcessError (returncode : Z)
| OSError
| FileNotFoundError
| PermissionError
| ValueError
| ConfigParserError.

Inductive exn_class :=
| ClsException
| ClsOSError
| ClsFileNotFoundError
| ClsCalledProcessError.

Definition isinstance (e : exn) (c : exn_class) : bool :=
  match c, e with
  | ClsException, _ => true
  | ClsOSError, (OSError | FileNotFoundError | PermissionError) => true
  | ClsFileNotFoundError, FileNotFoundError => true
  | ClsCalledProcessError, CalledProcessError _ => true
  | _, _ => false
  end.

Inductive outcome (A : Type) :=
| Ret (a : A)
| Raise (e : exn).
Arguments Ret {A} a.
Arguments Raise {A} e.

(** Errors of a failed system call; each is raised as an [OSError]. *)
Inductive os_error := ENOENT | EACCES | EIO.

Definition raise_of (e : os_error) : exn :=
  match e with
  | ENOENT => FileNotFoundError
  | EACCES => PermissionError
  | EIO => OSError
  end.

(** What [configparser] hands to the program: the sections in order, each
    with its [items()]; fetching a value interpolates it and may raise. *)
Definition section := list (string * outcome string).
Definition config := list (string * section).

(** An insertion-ordered dictionary, for the camera map that the main
    loop iterates. *)
Definition dict := list (string * string).

Fixpoint dict_get (k : string) (d : dict) : option string :=
  match d with
  | [] => None
  | (k', v) :: r => if decide (k = k') then Some v else dict_get k r
  end.

Fixpoint dict_set (k v : string) (d : dict) : dict :=
  match d with
  | [] => [(k, v)]
  | (k', v') :: r =>
      if decide (k = k') then (k, v) :: r else (k', v') :: dict_set k v r
  end.

(** The cache file: absent, present but rejected by [open] or by
    [json.load], or holding a JSON object all of whose values are strings.
    The watchdog itself only ever writes files of the last kind
    ([save_cache] dumps a dictionary of strings); a file put there by
    someone else whose JSON is of another shape (a list, a number, an
    object with a [null] value) is not among these states. *)
Inductive file_state :=
| NoFile
| Unreadable (e : exn)
| Contents (m : gmap string string).

(** What a failed write leaves of the cache file.  When
    [open(CACHE_FILE, "w")] itself fails the file is as it was.  Once
    [open] has succeeded the old content is gone: an error while
    [json.dump] writes leaves an empty or cut-off file, and an error that
    is only reported when the file is closed may leave the whole text. *)
Inductive write_damage := Untouched | CutOff | Complete.

(** The machine the program runs on, as the program finds it at one
    moment: the answers of the file system, of [udevadm] and of the shell,
    and what goes wrong when a file is opened or a program is started.
    - [shell_spawn_error cmd] is the error of starting [/bin/sh -c cmd],
      if it cannot be started;
    - [cache_write_error] is the error of writing the cache file, and
      [cache_write_damage] is what such a failed write leaves of the
      file;
    - [log_file_error] is the error of opening the log file;
    - [later] is the machine at the next moment, where it is not the
      same any more: a device that comes back or goes away, a shell that
      cannot be started any longer. *)
#[warnings="-register-all"]
Inductive world := World {
  ini_file : string → outcome config;
  path_exists : string → bool;
  path_islink : string → bool;
  path_realpath : string → string;
  path_stat : string → option os_error;
  udevadm_info : string → outcome (Z * string);
  shell : string → Z;
  shell_spawn_error : string → option os_error;
  cache_write_error : option os_error;
  cache_write_damage : write_damage;
  log_file_error : option os_error;
  later : option world
}.

Inductive level := INFO | WARNING | ERROR.

(** One constructor for each logging call of the watchdog. *)
Inductive message :=
| MsgFoundDevices (devices : list string)
| MsgParseError (ini_path : string) (e : exn)
| MsgCacheLoadFailed (e : exn)
| MsgCacheSaveFailed (e : exn)
| MsgNoBusIdInPath (path : string)
| MsgBusIdError (device : string) (e : exn)
| MsgBusIdUnexpected (device : string) (e : exn)
| MsgMapped (device bus_id : string)
| MsgNotDetected (device : string)
| MsgFromCache (device bus_id : string)
| MsgNoCachedBusId (device : string)
| MsgRebinding (bus_id : string)
| MsgDoneRebinding (bus_id : string)
| MsgRebindError (bus_id : string) (e : exn)
| MsgStarted
| MsgNoCameras
| MsgMonitoring (devices : list string)
| MsgMissing (device bus_id : string)
| MsgRule
| MsgDashes
| MsgTestTitle
| MsgTestParsing
| MsgTestNoDevices
| MsgTestParsed (n : nat)
| MsgTestBuilding
| MsgTestNoCameras
| MsgTestMapped (n : nat)
| MsgTestStatusHeader
| MsgTestStatus (device bus_id : string) (present : bool)
| MsgTestSymlink (real_path : string)
| MsgTestComplete.

Inductive syscall :=
| ReadIni (ini_path : string)
| PathExists (p : string)
| IsLink (p : string)
| RealPath (p : string)
| Stat (p : string)
| ReadCache
| WriteCache (m : gmap string string)
| Udevadm (device : string)
| Shell (cmd : string)
| SleepFor (seconds : nat)
| ConfigureLogging.

Inductive event :=
| Log (l : level) (m : message)
| Sys (c : syscall).

Record state := State {
  cache_file : file_state;
  trace : list event
}.

Definition M (A : Type) : Type := world → state → outcome A * state.

Definition ret {A} (a : A) : M A := λ _ st, (Ret a, st).

Definition raise {A} (e : exn) : M A := λ _ st, (Raise e, st).

Definition bind {A B} (m : M A) (k : A → M B) : M B :=
  λ w st,
    match m w st with
    | (Ret a, st') => k a w st'
    | (Raise e, st') => (Raise e, st')
    end.

Notation "x <- c1 ;; c2" := (bind c1 (λ x, c2))
  (at level 100, c1 at next level, right associativity).
Notation "c1 ;; c2" := (bind c1 (λ _, c2))
  (at level 100, right associativity).

(** [try: body / except cls1: h1 / except cls2: h2 ...]: the first clause
    whose class the exception belongs to handles it; an exception with no
    clause goes on to the caller. *)
Fixpoint find_handler {A} (e : exn) (hs : list (exn_class * (exn → M A)))
  : option (exn → M A) :=
  match hs with
  | [] => None
  | (c, h) :: r => if isinstance e c then Some h else find_handler e r
  end.

Definition try_except {A} (body : M A) (hs : list (exn_class * (exn → M A)))
  : M A :=
  λ w st,
    match body w st with
    | (Ret a, st') => (Ret a, st')
    | (Raise e, st') =>
        match find_handler e hs with
        | Some h => h e w st'
        | None => (Raise e, st')
        end
    end.

Definition emit (ev : event) : M unit :=
  λ _ st, (Ret tt, State (cache_file st) (trace st ++ [ev])).

Definition logging (l : level) (m : message) : M unit := emit (Log l m).

Definition ask {A} (f : world → A) : M A := λ w st, (Ret (f w), st).

Definition lift {A} (o : outcome A) : M A := λ _ st, (o, st).

(** A [for] loop whose body updates the local variables [s]. *)
Fixpoint for_each {A S} (l : list A) (body : A → S → M S) (s : S) : M S :=
  match l with
  | [] => ret s
  | x :: r => s' <- body x s ;; for_each r body s'
  end.

(** Time is counted in events: every call of the operating system and
    every log line is one moment.  [ahead k w] is the machine [k] moments
    after [w], and [now m] runs [m] on the machine of the moment at which
    it starts.  The schedule [later] is not influenced by the program; a
    statement for every world therefore covers every way the machine can
    react to what the program does. *)
Definition tomorrow (w : world) : world := default w (later w).

Definition ahead (k : nat) (w : world) : world := Nat.iter k tomorrow w.

Definition now {A} (m : M A) : M A :=
  λ w st, m (ahead (length (trace st)) w) st.

(** ** The operations of the standard library the program calls *)

Definition CACHE_FILE : string := "/tmp/camera_watchdog_cache.json".
Definition LOG_FILE : string := "/var/log/camera_watchdog.log".
Definition default_ini_path : string := "/opt/frodobots/teleop.ini".

(** [os.path.exists], [os.path.islink] and [os.path.realpath] answer
    without raising; [os.stat] raises an [OSError] when it fails. *)
Definition os_path_exists (p : string) : M bool :=
  emit (Sys (PathExists p)) ;; ask (λ w, path_exists w p).

Definition os_path_islink (p : string) : M bool :=
  emit (Sys (IsLink p)) ;; ask (λ w, path_islink w p).

Definition os_path_realpath (p : string) : M string :=
  emit (Sys (RealPath p)) ;; ask (λ w, path_realpath w p).

Definition os_stat (p : string) : M unit :=
  emit (Sys (Stat p)) ;;
  r <- ask (λ w, path_stat w p) ;;
  match r with
  | None => ret tt
  | Some err => raise (raise_of err)
  end.

Definition time_sleep (seconds : nat) : M unit := emit (Sys (SleepFor seconds)).

(** [check=True] turns a non-zero return code into [CalledProcessError]. *)
Definition check_returncode (check : bool) (rc : Z) : M unit :=
  if check && negb (rc =? 0)%Z then raise (CalledProcessError rc) else ret tt.

(** [subprocess.run(["udevadm", "info", "-q", "path", "-n", device], ...)];
    starting the tool or decoding its output may raise. *)
Definition run_udevadm (device : string) (check : bool) : M string :=
  emit (Sys (Udevadm device)) ;;
  r <- (λ w st, (udevadm_info w device, st)) ;;
  check_returncode check r.1 ;;
  ret r.2.

(** A string with an embedded NUL cannot be an argument of [exec]. *)
Definition has_nul (s : string) : bool :=
  existsb (Ascii.eqb Ascii.zero) (String.list_ascii_of_string s).

(** [subprocess.run(cmd, shell=True, ...)]: the command line is handed to
    [/bin/sh -c]; a command line with an embedded NUL is refused with
    [ValueError] before anything is started, a shell that cannot be
    started gives an [OSError], and otherwise the exit status of the
    shell is the return code. *)
Definition run_shell (cmd : string) (check : bool) : M Z :=
  emit (Sys (Shell cmd)) ;;
  if has_nul cmd then raise ValueError
  else
    now (err <- ask (λ w, shell_spawn_error w cmd) ;;
         match err with
         | Some e => raise (raise_of e)
         | None =>
             rc <- ask (λ w, shell w cmd) ;;
             check_returncode check rc ;;
             ret rc
         end).

(** [configparser.ConfigParser()] and [config.read(ini_path)]. *)
Definition config_read (ini_path : string) : M config :=
  emit (Sys (ReadIni ini_path)) ;; (λ w st, (ini_file w ini_path, st)).

Fixpoint config_section (name : string) (cfg : config) : option section :=
  match cfg with
  | [] => None
  | (n, items) :: r => if decide (name = n) then Some items else config_section name r
  end.

(** [os.path.exists(CACHE_FILE)] *)
Definition cache_file_exists : M bool :=
  emit (Sys (PathExists CACHE_FILE)) ;;
  (λ _ st, (Ret (match cache_file st with NoFile => false | _ => true end), st)).

(** [open(CACHE_FILE, "r")] and [json.load] *)
Definition read_cache_file : M (gmap string string) :=
  emit (Sys ReadCache) ;;
  (λ _ st,
     match cache_file st with
     | Contents m => (Ret m, st)
     | Unreadable e => (Raise e, st)
     | NoFile => (Raise FileNotFoundError, st)
     end).

(** The cache file after a failed attempt to write [m] over [old]; an
    empty or cut-off file is one that [json.load] rejects with
    [JSONDecodeError], a [ValueError]. *)
Definition after_failed_write (d : write_damage) (old : file_state)
    (m : gmap string string) : file_state :=
  match d with
  | Untouched => old
  | CutOff => Unreadable ValueError
  | Complete => Contents m
  end.

(** [open(CACHE_FILE, "w")] and [json.dump] *)
Definition write_cache_file (m : gmap string string) : M unit :=
  emit (Sys (WriteCache m)) ;;
  (λ w st,
     match cache_write_error w with
     | None => (Ret tt, State (Contents m) (trace st))
     | Some err =>
         (Raise (raise_of err),
          State (after_failed_write (cache_write_damage w) (cache_file st) m)
            (trace st))
     end).

Definition startswith (s prefix : string) : bool := String.prefix prefix s.

Definition dq : string := String (ascii_of_nat 34) String.EmptyString.

(** ** The watchdog *)

(** [logging.basicConfig(..., handlers=[logging.FileHandler(LOG_FILE),
    ...])]: the handler opens the log file when it is made, and the error
    of [open] is not caught. *)
Definition setup_logging : M unit :=
  emit (Sys ConfigureLogging) ;;
  err <- ask log_file_error ;;
  match err with
  | Some e => raise (raise_of e)
  | None => ret tt
  end.

(** The body of the loop over [config["plugin"].items()]. *)
Definition parse_entry (entry : string * outcome string) (devices : list string)
  : M (list string) :=
  value <- lift entry.2 ;;
  if startswith entry.1 "camera" then
    match Re.search_device (String.list_ascii_of_string value) with
    | Some p => ret (devices ++ [String.string_of_list_ascii p])
    | None => ret devices
    end
  else ret devices.

Definition parse_camera_devices (ini_path : string) : M (list string) :=
  try_except
    (cfg <- config_read ini_path ;;
     devices <- match config_section "plugin" cfg with
                | Some items => for_each items parse_entry []
                | None => ret []
                end ;;
     logging INFO (MsgFoundDevices devices) ;;
     ret devices)
    [(ClsException, λ e, logging ERROR (MsgParseError ini_path e) ;; ret [])].

Definition load_cache : M (gmap string string) :=
  r <- try_except
         (present <- cache_file_exists ;;
          if present then m <- read_cache_file ;; ret (Some m) else ret None)
         [(ClsException, λ e, logging WARNING (MsgCacheLoadFailed e) ;; ret None)] ;;
  match r with
  | Some m => ret m
  | None => ret ∅
  end.

Definition save_cache (cache : gmap string string) : M unit :=
  try_except
    (write_cache_file cache)
    [(ClsException, λ e, logging WARNING (MsgCacheSaveFailed e))].

Definition get_bus_id (device_path : string) : M (option string) :=
  try_except
    (stdout <- run_udevadm device_path true ;;
     let path := Re.strip (String.list_ascii_of_string stdout) in
     match Re.search_bus_id path with
     | Some m => ret (Some (String.string_of_list_ascii m))
     | None =>
         logging WARNING (MsgNoBusIdInPath (String.string_of_list_ascii path)) ;;
         ret None
     end)
    [(ClsCalledProcessError,
      λ e, logging ERROR (MsgBusIdError device_path e) ;; ret None);
     (ClsException,
      λ e, logging ERROR (MsgBusIdUnexpected device_path e) ;; ret None)].

Definition device_exists (device_path : string) : M bool :=
  try_except
    (present <- os_path_exists device_path ;;
     if negb present then ret false
     else
       is_link <- os_path_islink device_path ;;
       target_ok <- (if is_link then
                       real_path <- os_path_realpath device_path ;;
                       os_path_exists real_path
                     else ret true) ;;
       if negb target_ok then ret false
       else os_stat device_path ;; ret true)
    [(ClsOSError, λ _, ret false);
     (ClsFileNotFoundError, λ _, ret false)].

(** The local variables of [build_camera_map] that its loop updates. *)
Record locals := Locals {
  camera_map : dict;
  cache : gmap string string;
  cache_updated : bool
}.

(** Truth value of [bus_id] in [if bus_id:]. *)
Definition truthy (bus_id : option string) : option string :=
  match bus_id with
  | Some b => if decide (b = String.EmptyString) then None else Some b
  | None => None
  end.

(** The body of the loop of [build_camera_map] for one [device]. *)
Definition resolve (device : string) (l : locals) : M locals :=
  present <- device_exists device ;;
  if present then
    bus_id <- get_bus_id device ;;
    match truthy bus_id with
    | Some b =>
        logging INFO (MsgMapped device b) ;;
        let cm := dict_set device b (camera_map l) in
        if decide (cache l !! device ≠ Some b)
        then ret (Locals cm (<[device := b]> (cache l)) true)
        else ret (Locals cm (cache l) (cache_updated l))
    | None =>
        logging WARNING (MsgNotDetected device) ;;
        ret l
    end
  else
    match cache l !! device with
    | Some b =>
        logging INFO (MsgFromCache device b) ;;
        ret (Locals (dict_set device b (camera_map l)) (cache l) (cache_updated l))
    | None =>
        logging WARNING (MsgNoCachedBusId device) ;;
        ret l
    end.

Definition build_camera_map : M dict :=
  devices <- parse_camera_devices default_ini_path ;;
  cache0 <- load_cache ;;
  l <- for_each devices resolve (Locals [] cache0 false) ;;
  (if cache_updated l then save_cache (cache l) else ret tt) ;;
  ret (camera_map l).

Definition unbind_command (bus_id : string) : string :=
  "echo " +:+ dq +:+ bus_id +:+ dq +:+ " | sudo tee /sys/bus/usb/drivers/uvcvideo/unbind".

Definition bind_command (bus_id : string) : string :=
  "echo " +:+ dq +:+ bus_id +:+ dq +:+ " | sudo tee /sys/bus/usb/drivers/uvcvideo/bind".

Definition rebind_device (bus_id : string) : M bool :=
  logging INFO (MsgRebinding bus_id) ;;
  try_except
    (run_shell (unbind_command bus_id) false ;;
     time_sleep 2 ;;
     run_shell (bind_command bus_id) false ;;
     time_sleep 3 ;;
     logging INFO (MsgDoneRebinding bus_id) ;;
     ret true)
    [(ClsCalledProcessError,
      λ e, logging ERROR (MsgRebindError bus_id e) ;; ret false)].

(** The body of the status loop of [test_mode]. *)
Definition show_status (entry : string * string) (_ : unit) : M unit :=
  let dev := entry.1 in
  let bus_id := entry.2 in
  present <- device_exists dev ;;
  is_link <- os_path_islink dev ;;
  if is_link then
    try_except
      (real_path <- os_path_realpath dev ;;
       logging INFO (MsgTestStatus dev bus_id present) ;;
       logging INFO (MsgTestSymlink real_path))
      [(ClsException, λ _, logging INFO (MsgTestStatus dev bus_id present))]
  else logging INFO (MsgTestStatus dev bus_id present).

Definition test_mode : M unit :=
  logging INFO MsgRule ;;
  logging INFO MsgTestTitle ;;
  logging INFO MsgRule ;;
  logging INFO MsgTestParsing ;;
  devices <- parse_camera_devices default_ini_path ;;
  match devices with
  | [] => logging ERROR MsgTestNoDevices
  | _ =>
      logging INFO (MsgTestParsed (length devices)) ;;
      logging INFO MsgTestBuilding ;;
      CAMERA_MAP <- build_camera_map ;;
      match CAMERA_MAP with
      | [] => logging ERROR MsgTestNoCameras
      | _ =>
          logging INFO (MsgTestMapped (length CAMERA_MAP)) ;;
          logging INFO MsgTestStatusHeader ;;
          logging INFO MsgDashes ;;
          for_each CAMERA_MAP show_status tt ;;
          logging INFO MsgRule ;;
          logging INFO MsgTestComplete ;;
          logging INFO MsgRule
      end
  end.

(** The body of the loop over [CAMERA_MAP.items()] in one poll cycle: the
    node is looked for on the machine as it is at that moment. *)
Definition check_camera (entry : string * string) (_ : unit) : M unit :=
  let dev := entry.1 in
  let bus_id := entry.2 in
  present <- now (device_exists dev) ;;
  if negb present then
    logging WARNING (MsgMissing dev bus_id) ;;
    rebind_device bus_id ;;
    ret tt
  else ret tt.

(** How a run of [main] is left: it returned, or it is still inside
    [while True] after the poll cycles that were asked for. *)
Inductive exit := Returned | Polling.

(** [while True: ...], unrolled for [cycles] poll cycles. *)
Fixpoint poll_loop (cycles : nat) (CAMERA_MAP : dict) : M exit :=
  match cycles with
  | O => ret Polling
  | S n =>
      for_each CAMERA_MAP check_camera tt ;;
      time_sleep 5 ;;
      poll_loop n CAMERA_MAP
  end.

Definition main (argv : list string) (cycles : nat) : M exit :=
  setup_logging ;;
  if decide ("--test" ∈ argv) then
    test_mode ;;
    ret Returned
  else
    logging INFO MsgStarted ;;
    CAMERA_MAP <- build_camera_map ;;
    match CAMERA_MAP with
    | [] =>
        logging ERROR MsgNoCameras ;;
        ret Returned
    | _ =>
        logging INFO (MsgMonitoring (CAMERA_MAP.*1)) ;;
        poll_loop cycles CAMERA_MAP
    end.

(** A fresh start: the cache file as found, nothing logged or asked yet. *)
Definition initial (f : file_state) : state := State f [].

(** ** Vocabulary of the specification *)

(** A device path counts as live-detected in a world when its node is
    there and the bus id query gives an identifier. *)
Definition node_present (w : world) (device : string) : bool :=
  match device_exists device w (initial NoFile) with
  | (Ret b, _) => b
  | (Raise _, _) => false
  end.

Definition detected (w : world) (device : string) : option string :=
  match get_bus_id device w (initial NoFile) with
  | (Ret r, _) => truthy r
  | (Raise _, _) => None
  end.

Definition live_bus_id (w : world) (device : string) : option string :=
  if node_present w device then detected w device else None.

(** The cache dictionary that [load_cache] produces from a cache file. *)
Definition loaded (f : file_state) : gmap string string :=
  match f with
  | Contents m => m
  | _ => ∅
  end.

(** The cache dictionaries handed to [open(CACHE_FILE, "w")] in a trace. *)
Fixpoint saves (t : list event) : list (gmap string string) :=
  match t with
  | [] => []
  | Sys (WriteCache m) :: r => m :: saves r
  | _ :: r => saves r
  end.

(** The number of completed poll cycles in a trace: each cycle ends with
    [time.sleep(5)]. *)
Fixpoint polls (t : list event) : nat :=
  match t with
  | [] => O
  | Sys (SleepFor 5) :: r => S (polls r)
  | _ :: r => polls r
  end.

(** The spelling of a stable bus identifier:
    [<digits>-<digits or dots>:<digits>.<digits>]. *)
Definition digits (t : list ascii) : Prop :=
  t ≠ [] ∧ Forall (λ a, Re.is_digit a = true) t.

Definition digits_or_dots (t : list ascii) : Prop :=
  t ≠ [] ∧ Forall (λ a, Re.is_digit_or_dot a = true) t.

Definition is_bus_id (m : list ascii) : Prop :=
  ∃ a b c d,
    m = a ++ "-"%char :: b ++ ":"%char :: c ++ "."%char :: d
    ∧ digits a ∧ digits_or_dots b ∧ digits c ∧ digits d.

(** The [<path>] of a [device=<path>] token: a non-empty run of characters
    that are neither whitespace nor [!]. *)
Definition path_text (p : list ascii) : Prop :=
  p ≠ [] ∧ Forall (λ a, Re.is_path_char a = true) p.

Definition device_key : list ascii := String.list_ascii_of_string "device=".

(** What ends a path: the end of the value, whitespace, or [!]. *)
Definition terminated (post : list ascii) : Prop :=
  match post with
  | [] => True
  | c :: _ => Re.is_space c = true ∨ c = "!"%char
  end.

(** [runs m w st a f evs]: started in [st], [m] returns [a] without
    raising, adds the events [evs] to the trace and leaves the cache file
    in state [f]. *)
Definition runs {A} (m : M A) (w : world) (st : state)
    (a : A) (f : file_state) (evs : list event) : Prop :=
  m w st = (Ret a, State f (trace st ++ evs)).

(** The device paths that [parse_camera_devices()] yields in a world. *)
Definition configured (w : world) : list string :=
  match parse_camera_devices default_ini_path w (initial NoFile) with
  | (Ret devices, _) => devices
  | (Raise _, _) => []
  end.

(** The local variables after one turn of the loop of [build_camera_map]. *)
Definition resolved (w : world) (l : locals) (device : string) : locals :=
  match resolve device l w (initial NoFile) with
  | (Ret l', _) => l'
  | (Raise _, _) => l
  end.

(** The Configuration Reader in the words of the specification: of the
    entries of the plugin section, in order, those whose key starts with
    [camera] and whose value holds a [device=<path>] token give their
    path; the others are skipped; a source that cannot be read or parsed
    gives no device at all. *)
Definition extract_path (entry : string * string) : option string :=
  if startswith entry.1 "camera"
  then String.string_of_list_ascii
         <$> Re.search_device (String.list_ascii_of_string entry.2)
  else None.

Fixpoint fetched (items : section) : option (list (string * string)) :=
  match items with
  | [] => Some []
  | (k, Ret v) :: r => cons (k, v) <$> fetched r
  | (_, Raise _) :: _ => None
  end.

Definition camera_devices (source : outcome config) : list string :=
  match source with
  | Ret cfg =>
      match config_section "plugin" cfg with
      | Some items =>
          match fetched items with
          | Some entries => omap extract_path entries
          | None => []
          end
      | None => []
      end
  | Raise _ => []
  end.

(** What [get_bus_id] returns, read off the answer of [udevadm]. *)
Definition queried (w : world) (device : string) : option string :=
  match udevadm_info w device with
  | Ret (rc, out) =>
      if (rc =? 0)%Z
      then String.string_of_list_ascii
             <$> Re.search_bus_id (Re.strip (String.list_ascii_of_string out))
      else None
  | Raise _ => None
  end.

(** One turn of the loop of [build_camera_map], case by case. *)
Definition resolve_outcome (w : world) (l : locals) (device : string) : locals :=
  if node_present w device then
    match detected w device with
    | Some b =>
        if decide (cache l !! device = Some b)
        then Locals (dict_set device b (camera_map l)) (cache l) (cache_updated l)
        else Locals (dict_set device b (camera_map l))
                    (<[device := b]> (cache l)) true
    | None => l
    end
  else
    match cache l !! device with
    | Some b =>
        Locals (dict_set device b (camera_map l)) (cache l) (cache_updated l)
    | None => l
    end.

(** The local variables of [build_camera_map] when its loop is over, for
    a world and the cache file found at the start. *)
Definition final_locals (w : world) (f : file_state) : locals :=
  foldl (resolved w) (Locals [] (loaded f) false) (configured w).

(** The cache file after [build_camera_map]: rewritten if the loop marked
    the cache updated and the file can be written, and what the failed
    write left of it if it cannot. *)
Definition final_file (w : world) (f : file_state) : file_state :=
  if cache_updated (final_locals w f) then
    match cache_write_error w with
    | None => Contents (cache (final_locals w f))
    | Some _ =>
        after_failed_write (cache_write_damage w) f (cache (final_locals w f))
    end
  else f.

(** The bus id that one turn of the loop puts in the camera map for a
    device, given the cache [c] at that turn: the live one if there is
    one, the cached one only when the node is missing. *)
Definition expected (w : world) (c : gmap string string) (device : string)
  : option string :=
  match live_bus_id w device with
  | Some b => Some b
  | None => if node_present w device then None else c !! device
  end.

(** The shell can be started at every moment. *)
Definition shell_starts (w : world) : Prop :=
  ∀ k cmd, shell_spawn_error (ahead k w) cmd = None.

(** The two command lines of the rebind of one entry of the camera map. *)
Definition rebind_commands (entry : string * string) : list string :=
  [unbind_command entry.2; bind_command entry.2].

(** ** Sample worlds *)

Definition sample_config : config :=
  [("plugin",
    [("camera1", Ret "v4l2src device=/dev/video0 ! videoconvert ! appsink");
     ("camera2", Ret "v4l2src device=/dev/video2 ! videoconvert ! appsink");
     ("microphone", Ret "alsasrc device=hw:1")])].

Definition sample_sysfs_path : string :=
  "/devices/pci0000:00/0000:00:14.0/usb1/1-2/1-2:1.0/video4linux/video0"
  +:+ String (ascii_of_nat 10) String.EmptyString.

(** [/dev/video0] is plugged in at [1-2:1.0]; [/dev/video2] is gone. *)
Definition sample_world : world :=
  {| ini_file := λ _, Ret sample_config;
     path_exists := λ p, bool_decide (p = "/dev/video0");
     path_islink := λ _, false;
     path_realpath := λ p, p;
     path_stat := λ _, None;
     udevadm_info := λ d,
       if decide (d = "/dev/video0") then Ret (0%Z, sample_sysfs_path)
       else Ret (1%Z, String.EmptyString);
     shell := λ _, 0%Z;
     shell_spawn_error := λ _, None;
     cache_write_error := None;
     cache_write_damage := Untouched;
     log_file_error := None;
     later := None |}.

(** Both nodes are there, but [udevadm] fails for each of them. *)
Definition undetected_world : world :=
  {| ini_file := λ _, Ret sample_config;
     path_exists := λ _, true;
     path_islink := λ _, false;
     path_realpath := λ p, p;
     path_stat := λ _, None;
     udevadm_info := λ _, Ret (1%Z, String.EmptyString);
     shell := λ _, 0%Z;
     shell_spawn_error := λ _, None;
     cache_write_error := None;
     cache_write_damage := Untouched;
     log_file_error := None;
     later := None |}.

(** As [sample_world], but writing to the driver's [bind] and [unbind]
    files is denied: the shell pipelines exit with status 1. *)
Definition denied_world : world :=
  {| ini_file := λ _, Ret sample_config;
     path_exists := λ p, bool_decide (p = "/dev/video0");
     path_islink := λ _, false;
     path_realpath := λ p, p;
     path_stat := λ _, None;
     udevadm_info := λ d,
       if decide (d = "/dev/video0") then Ret (0%Z, sample_sysfs_path)
       else Ret (1%Z, String.EmptyString);
     shell := λ _, 1%Z;
     shell_spawn_error := λ _, None;
     cache_write_error := None;
     cache_write_damage := Untouched;
     log_file_error := None;
     later := None |}.

(** A cache file that remembers [/dev/video2] only. *)
Definition sample_cache : file_state :=
  Contents {[ "/dev/video2" := "1-3:1.0" ]}.

(** A cache file that remembers [/dev/video0] only. *)
Definition video0_cache : file_state :=
  Contents {[ "/dev/video0" := "1-2:1.0" ]}.

(** A cache file that already holds what the sample world will detect. *)
Definition settled_cache : file_state :=
  Contents {[ "/dev/video0" := "1-2:1.0"; "/dev/video2" := "1-3:1.0" ]}.

(** The command lines handed to [subprocess.run(..., shell=True)] in a
    trace, in order. *)
Fixpoint shell_commands (t : list event) : list string :=
  match t with
  | [] => []
  | Sys (Shell cmd) :: r => cmd :: shell_commands r
  | _ :: r => shell_commands r
  end.

(** The seconds spent in [time.sleep] in a trace. *)
Fixpoint slept (t : list event) : nat :=
  match t with
  | [] => O
  | Sys (SleepFor n) :: r => n + slept r
  | _ :: r => slept r
  end.

(** The messages logged at a given level in a trace, in order. *)
Fixpoint logged (lv : level) (t : list event) : list message :=
  match t with
  | [] => []
  | Log l m :: r =>
      match lv, l with
      | INFO, INFO | WARNING, WARNING | ERROR, ERROR => m :: logged lv r
      | _, _ => logged lv r
      end
  | _ :: r => logged lv r
  end.


(** The entries of a camera map whose node is missing. *)
Definition missing (w : world) (cm : dict) : dict :=
  filter (λ entry : string * string, node_present w entry.1 = false) cm.

(** What one poll cycle rebinds on a machine that changes while it is
    watched: entries of the camera map, in the order of the map, each of
    them missing at some moment, and among them every entry that is
    missing all the time. *)
Definition cycle_rebinds (w : world) (cm : dict) (rebound : dict) : Prop :=
  rebound `sublist_of` cm
  ∧ (∀ entry, entry ∈ rebound →
              ∃ k, node_present (ahead k w) entry.1 = false)
  ∧ (∀ entry, entry ∈ cm →
              (∀ k, node_present (ahead k w) entry.1 = false) →
              entry ∈ rebound).

(** The warning of the poll loop for an entry whose node is missing. *)
Definition missing_warning (entry : string * string) : message :=
  MsgMissing entry.1 entry.2.

(** The characters a bus identifier is made of. *)
Definition is_bus_id_char (c : ascii) : bool :=
  Re.is_digit c || Ascii.eqb c "-"%char || Ascii.eqb c "."%char
  || Ascii.eqb c ":"%char.

(** A cache dictionary or camera map all of whose values are spelled as
    bus identifiers. *)
Definition bus_id_string (b : string) : Prop :=
  is_bus_id (String.list_ascii_of_string b).

(** A configuration one of whose values cannot be fetched. *)
Definition broken_config : config :=
  [("plugin",
    [("camera1", Ret "v4l2src device=/dev/video0 ! videoconvert ! appsink");
     ("note", Raise ValueError)])].

Definition broken_world : world :=
  {| ini_file := λ _, Ret broken_config;
     path_exists := λ _, true;
     path_islink := λ _, false;
     path_realpath := λ p, p;
     path_stat := λ _, None;
     udevadm_info := λ _, Ret (0%Z, sample_sysfs_path);
     shell := λ _, 0%Z;
     shell_spawn_error := λ _, None;
     cache_write_error := None;
     cache_write_damage := Untouched;
     log_file_error := None;
     later := None |}.

(** As [sample_world], but the cache file can be opened and not written:
    the disk is full, and the write leaves a cut-off file. *)
Definition full_disk_world : world :=
  {| ini_file := λ _, Ret sample_config;
     path_exists := λ p, bool_decide (p = "/dev/video0");
     path_islink := λ _, false;
     path_realpath := λ p, p;
     path_stat := λ _, None;
     udevadm_info := λ d,
       if decide (d = "/dev/video0") then Ret (0%Z, sample_sysfs_path)
       else Ret (1%Z, String.EmptyString);
     shell := λ _, 0%Z;
     shell_spawn_error := λ _, None;
     cache_write_error := Some EIO;
     cache_write_damage := CutOff;
     log_file_error := None;
     later := None |}.

(** As [sample_world], but the cache file cannot be opened for writing. *)
Definition readonly_world : world :=
  {| ini_file := λ _, Ret sample_config;
     path_exists := λ p, bool_decide (p = "/dev/video0");
     path_islink := λ _, false;
     path_realpath := λ p, p;
     path_stat := λ _, None;
     udevadm_info := λ d,
       if decide (d = "/dev/video0") then Ret (0%Z, sample_sysfs_path)
       else Ret (1%Z, String.EmptyString);
     shell := λ _, 0%Z;
     shell_spawn_error := λ _, None;
     cache_write_error := Some EACCES;
     cache_write_damage := Untouched;
     log_file_error := None;
     later := None |}.



(** As [sample_world] with [/dev/video2] plugged in again, at [1-3:1.0]. *)
Definition plugged_world : world :=
  {| ini_file := λ _, Ret sample_config;
     path_exists := λ p,
       bool_decide (p = "/dev/video0") || bool_decide (p = "/dev/video2");
     path_islink := λ _, false;
     path_realpath := λ p, p;
     path_stat := λ _, None;
     udevadm_info := λ d,
       if decide (d = "/dev/video0") then Ret (0%Z, sample_sysfs_path)
       else if decide (d = "/dev/video2") then
         Ret (0%Z,
              "/devices/pci0000:00/0000:00:14.0/usb1/1-3/1-3:1.0/video4linux/video2")
       else Ret (1%Z, String.EmptyString);
     shell := λ _, 0%Z;
     shell_spawn_error := λ _, None;
     cache_write_error := None;
     cache_write_damage := Untouched;
     log_file_error := None;
     later := None |}.

(** The machine [w] with another future. *)
Definition with_later (w : world) (l : option world) : world :=
  {| ini_file := ini_file w;
     path_exists := path_exists w;
     path_islink := path_islink w;
     path_realpath := path_realpath w;
     path_stat := path_stat w;
     udevadm_info := udevadm_info w;
     shell := shell w;
     shell_spawn_error := shell_spawn_error w;
     cache_write_error := cache_write_error w;
     cache_write_damage := cache_write_damage w;
     log_file_error := log_file_error w;
     later := l |}.

(** The machine [w] for [k] moments, and [w'] from then on. *)
Fixpoint followed_by (k : nat) (w w' : world) : world :=
  match k with
  | O => w'
  | S n => with_later w (Some (followed_by n w w'))
  end.



(** A character that an item of a pattern cannot take. *)
Definition item_rejects (a : ascii) (it : Re.item) : Prop :=
  match it with
  | Re.Chr c => a ≠ c
  | Re.Many1 cls => cls a = false
  end.

(** The text found by [re.search], without its position. *)
Definition found (its : list Re.item) (s : list ascii) : option (list (list ascii)) :=
  snd <$> Re.search its s.

(** A computation is calm when, however it ends, it has run no shell
    command and has not slept. *)
Definition calm {A} (m : M A) : Prop :=
  ∀ w st,
    ∃ r f evs,
      m w st = (r, State f (trace st ++ evs))
      ∧ shell_commands evs = [] ∧ slept evs = 0.

(** * Properties *)

(** ** The pattern matcher *)

Module ReFacts.
Import Re.

Lemma span_len_le cls s : span_len cls s ≤ length s.
Proof. induction s as [|a s IH]; simpl; [lia|]. destruct (cls a); simpl; lia. Qed.

Lemma span_len_take cls s k :
  k ≤ span_len cls s → Forall (λ a, cls a = true) (take k s).
Proof.
  revert k. induction s as [|a s IH]; intros k Hk; simpl in *.
  - rewrite take_nil. constructor.
  - destruct k as [|k]; [constructor|].
    destruct (cls a) eqn:Ha; [|lia].
    simpl. constructor; [done|]. apply IH. lia.
Qed.

(** A run of class characters at the head of [s] is inside the span. *)
Lemma span_len_ge cls p rest :
  Forall (λ a, cls a = true) p → length p ≤ span_len cls (p ++ rest).
Proof.
  induction 1 as [|a p Ha _ IH]; simpl; [lia|]. rewrite Ha. lia.
Qed.

(** ... and is the whole span when a character outside the class follows. *)
Lemma span_len_delim cls p c rest :
  Forall (λ a, cls a = true) p → cls c = false →
  span_len cls (p ++ c :: rest) = length p.
Proof.
  intros Hp Hc. induction Hp as [|a p Ha _ IH]; simpl.
  - by rewrite Hc.
  - by rewrite Ha, IH.
Qed.

Lemma backoff_Some k s rest ps :
  backoff k s rest = Some ps →
  ∃ j ps', 1 ≤ j ≤ k ∧ rest (drop j s) = Some ps' ∧ ps = take j s :: ps'
           ∧ ∀ i, j < i ≤ k → rest (drop i s) = None.
Proof.
  induction k as [|k IH]; simpl; [done|].
  destruct (rest (drop (S k) s)) as [ps'|] eqn:E.
  - intros [= <-]. exists (S k), ps'. split_and!; [lia|lia|done|done|].
    intros i Hi. lia.
  - intros H. destruct (IH H) as (j & ps' & Hj & Hr & -> & Hn).
    exists j, ps'. split_and!; [lia|lia|done|done|].
    intros i Hi. destruct (decide (i = S k)) as [->|]; [done|]. apply Hn. lia.
Qed.

Lemma backoff_is_Some k s rest j :
  1 ≤ j ≤ k → is_Some (rest (drop j s)) → is_Some (backoff k s rest).
Proof.
  induction k as [|k IH]; intros Hj Hs; [lia|]. simpl.
  destruct (rest (drop (S k) s)) eqn:E; [eauto|].
  apply IH; [|done].
  destruct (decide (j = S k)) as [->|]; [|lia].
  rewrite E in Hs. by destruct Hs.
Qed.

(** What [match_here] returns is a match, and it is at the head of [s]. *)
Lemma match_here_sound its s ps :
  match_here its s = Some ps →
  Forall2 item_ok its ps ∧ s = concat ps ++ drop (length (concat ps)) s.
Proof.
  revert s ps. induction its as [|it its IH]; intros s ps; simpl.
  - intros [= <-]. split; [constructor|done].
  - destruct it as [c|cls].
    + destruct s as [|a s]; [done|].
      destruct (Ascii.eqb_spec a c) as [->|]; [|done].
      destruct (match_here its s) as [ps'|] eqn:E; [|done].
      intros [= <-]. destruct (IH _ _ E) as [H1 H2].
      split; [constructor; done|]. simpl. by rewrite <- H2.
    + intros H. apply backoff_Some in H as (j & ps' & Hj & Hr & -> & _).
      destruct (IH _ _ Hr) as [H1 H2].
      assert (Hlen : j ≤ length s).
      { pose proof (span_len_le cls s). lia. }
      split.
      * constructor; [|done]. split.
        -- intros Hnil. apply (f_equal length) in Hnil.
           rewrite length_take in Hnil. simpl in Hnil. lia.
        -- apply span_len_take. lia.
      * simpl. rewrite length_app, length_take, Nat.min_l by done.
        rewrite <- drop_drop, <- app_assoc, <- H2. by rewrite take_drop.
Qed.

(** Whenever some match sits at the head of [s], [match_here] finds one. *)
Lemma match_here_complete its ps rest :
  Forall2 item_ok its ps → is_Some (match_here its (concat ps ++ rest)).
Proof.
  intros H. revert rest. induction H as [|it p its ps Hit _ IH]; intros rest.
  - simpl. eauto.
  - destruct it as [c|cls]; simpl in Hit.
    + subst p. simpl. rewrite Ascii.eqb_refl.
      destruct (IH rest) as [x ->]. simpl. eauto.
    + destruct Hit as [Hne Hall].
      cbn [match_here concat]. rewrite <- app_assoc.
      apply (backoff_is_Some _ _ _ (length p)).
      * split; [destruct p; simpl; [done|lia]|]. by apply span_len_ge.
      * rewrite drop_app_length. apply IH.
Qed.

Lemma span_len_inside cls s j :
  j < span_len cls s → ∃ a s', drop j s = a :: s' ∧ cls a = true.
Proof.
  revert j. induction s as [|a s IH]; intros j Hj; simpl in *; [lia|].
  destruct (cls a) eqn:Ha; [|lia].
  destruct j as [|j]; [by exists a, s|].
  simpl. apply IH. lia.
Qed.

Lemma match_here_Chr_head c r s ps :
  match_here (Chr c :: r) s = Some ps → ∃ s', s = c :: s'.
Proof.
  simpl. destruct s as [|a s]; [done|].
  destruct (Ascii.eqb_spec a c) as [->|]; [eauto|done].
Qed.

(** On a delimited pattern the backtracking match is the longest match
    at that position. *)
Lemma match_here_longest its s ps ps' rest' :
  delimited its = true →
  match_here its s = Some ps →
  Forall2 item_ok its ps' → s = concat ps' ++ rest' →
  length (concat ps') ≤ length (concat ps).
Proof.
  revert s ps ps' rest'.
  induction its as [|it its IH]; intros s ps ps' rest' Hd Hm Hps' Hs.
  { inversion Hps'; subst. simpl. lia. }
  inversion Hps' as [|? p' ? ps'' Hit Hrest]; subst. clear Hps'.
  destruct it as [c|cls].
  - simpl in Hit. subst p'. simpl in Hm, Hd |- *.
    rewrite Ascii.eqb_refl in Hm.
    destruct (match_here its _) as [ps2|] eqn:E; [|done].
    injection Hm as <-. simpl.
    specialize (IH _ _ _ _ Hd E Hrest eq_refl). lia.
  - destruct Hit as [Hne Hall].
    remember (concat (p' :: ps'') ++ rest') as s eqn:Hs.
    assert (Hs' : s = p' ++ (concat ps'' ++ rest')).
    { rewrite Hs. simpl. by rewrite app_assoc. }
    clear Hs. cbn [match_here] in Hm.
    apply backoff_Some in Hm as (j & ps2 & Hj & Hr & -> & Hlater).
    pose proof (span_len_le cls s) as Hle.
    cbn [concat].
    rewrite (length_app (take _ _)), length_take, Nat.min_l by lia.
    rewrite length_app.
    destruct its as [|[c|cls'] its'].
    + inversion Hrest; subst ps''. simpl in *.
      assert (¬ j < span_len cls s).
      { intros Hlt. by specialize (Hlater _ (conj Hlt (le_n _))). }
      pose proof (span_len_ge cls p' rest' Hall). rewrite <- Hs' in *. lia.
    + cbn [delimited] in Hd. apply andb_prop in Hd as [Hc Hd'].
      apply negb_true_iff in Hc.
      inversion Hrest as [|? q ? ps3 Hq Hrest']; subst.
      simpl in Hq. subst q.
      assert (Hspan : span_len cls (p' ++ concat ([c] :: ps3) ++ rest')
                      = length p').
      { simpl. by apply span_len_delim. }
      assert (j = length p') as ->.
      { destruct (decide (j = length p')); [done|].
        destruct (span_len_inside cls (p' ++ concat ([c] :: ps3) ++ rest') j)
          as (a & s' & Hdrop & Ha); [lia|].
        apply match_here_Chr_head in Hr as [s'' Hr].
        rewrite Hdrop in Hr. injection Hr as -> _. congruence. }
      rewrite drop_app_length in Hr.
      specialize (IH _ _ ([c] :: ps3) rest' Hd' Hr).
      assert (length (concat ([c] :: ps3)) ≤ length (concat ps2)); [|lia].
      apply IH; [|done]. by constructor.
    + done.
Qed.

Lemma search_from_Some its s pos q ps :
  search_from its s pos = Some (q, ps) →
  ∃ i, q = pos + i ∧ i ≤ length s ∧ match_here its (drop i s) = Some ps
       ∧ ∀ j, j < i → match_here its (drop j s) = None.
Proof.
  revert pos. induction s as [|a s IH]; intros pos; simpl.
  - destruct (match_here its []) eqn:E; [|done].
    intros [= <- <-]. exists 0. split_and!; [lia|simpl; lia|done|]. intros; lia.
  - destruct (match_here its (a :: s)) eqn:E.
    + intros [= <- <-]. exists 0. split_and!; [lia|simpl; lia|done|]. intros; lia.
    + intros H. apply IH in H as (i & -> & Hi & Hm & Hn).
      exists (S i). split_and!; [lia|simpl; lia|done|].
      intros [|j] Hj; [done|]. simpl. apply Hn. lia.
Qed.

Lemma search_from_None its s pos j :
  search_from its s pos = None → match_here its (drop j s) = None.
Proof.
  revert pos j. induction s as [|a s IH]; intros pos j; simpl.
  - destruct (match_here its []) eqn:E; [done|]. by rewrite drop_nil.
  - destruct (match_here its (a :: s)) eqn:E; [done|].
    intros H. destruct j as [|j]; [done|]. simpl. by eapply IH.
Qed.

(** [re.search] on a delimited pattern: the match that starts first, and
    the longest one that starts there; no result only if nothing matches
    anywhere. *)
Lemma search_leftmost_longest its path :
  delimited its = true →
  match search its path with
  | Some (i, ps) =>
      i ≤ length path ∧ Forall2 item_ok its ps ∧
      (∃ post, path = take i path ++ concat ps ++ post) ∧
      ∀ pre' ps' post',
        path = pre' ++ concat ps' ++ post' → Forall2 item_ok its ps' →
        i ≤ length pre' ∧
        (length pre' = i → length (concat ps') ≤ length (concat ps))
  | None =>
      ∀ pre' ps' post',
        path = pre' ++ concat ps' ++ post' → ¬ Forall2 item_ok its ps'
  end.
Proof.
  intros Hd. unfold search.
  destruct (search_from its path 0) as [[i ps]|] eqn:E.
  - apply search_from_Some in E as (i' & -> & Hi & Hm & Hn). simpl.
    destruct (match_here_sound _ _ _ Hm) as [Hok Hs].
    split_and!; [done|done| |].
    + exists (drop (length (concat ps)) (drop i' path)).
      rewrite <- Hs. by rewrite take_drop.
    + intros pre' ps' post' Hp Hok'.
      assert (Hdrop : drop (length pre') path = concat ps' ++ post').
      { rewrite Hp. by rewrite drop_app_length. }
      split.
      * destruct (decide (i' ≤ length pre')); [done|].
        specialize (Hn (length pre')). rewrite Hdrop in Hn.
        destruct (match_here_complete its ps' post' Hok') as [x Hx].
        rewrite Hn in Hx by lia. done.
      * intros <-. rewrite Hdrop in Hm.
        by eapply match_here_longest.
  - intros pre' ps' post' Hp Hok'.
    pose proof (search_from_None _ _ _ (length pre') E) as Hn.
    rewrite Hp, drop_app_length in Hn.
    destruct (match_here_complete its ps' post' Hok') as [x Hx].
    rewrite Hn in Hx. done.
Qed.

End ReFacts.

Lemma is_bus_id_matches m : is_bus_id m ↔ Re.matches Re.bus_id_pattern m.
Proof.
  split.
  - intros (a & b & c & d & -> & Ha & Hb & Hc & Hd).
    exists [a; ["-"%char]; b; [":"%char]; c; ["."%char]; d]. split.
    + repeat constructor; apply Ha || apply Hb || apply Hc || apply Hd.
    + simpl. rewrite app_nil_r. done.
  - intros (ps & Hok & <-). unfold Re.bus_id_pattern in Hok.
    repeat match goal with
           | H : Forall2 _ (_ :: _) _ |- _ => inversion H; subst; clear H
           | H : Forall2 _ [] _ |- _ => inversion H; subst; clear H
           end.
    simpl in *. subst.
    match goal with
    | |- is_bus_id (?a ++ _ ++ ?b ++ _ ++ ?c ++ _ ++ ?d ++ []) =>
        exists a, b, c, d
    end.
    rewrite app_nil_r. done.
Qed.

Lemma device_token_matches m :
  Re.matches Re.device_pattern m ↔ ∃ p, m = device_key ++ p ∧ path_text p.
Proof.
  split.
  - intros (ps & Hok & <-). unfold Re.device_pattern in Hok. simpl in Hok.
    repeat match goal with
           | H : Forall2 _ (_ :: _) _ |- _ => inversion H; subst; clear H
           | H : Forall2 _ [] _ |- _ => inversion H; subst; clear H
           end.
    simpl in *. subst.
    match goal with
    | H : path_text ?p |- _ => exists p
    | H : ?p ≠ [] ∧ _ |- _ => exists p
    end.
    simpl. rewrite app_nil_r. done.
  - intros (p & -> & Hp).
    exists (((λ c, [c]) <$> device_key) ++ [p]). split.
    + simpl. repeat constructor; apply Hp.
    + simpl. by rewrite app_nil_r.
Qed.

(** ** Running the effect monad *)

Lemma saves_app t1 t2 : saves (t1 ++ t2) = saves t1 ++ saves t2.
Proof.
  induction t1 as [|[l m|[]] t1 IH]; simpl; rewrite ?IH; done.
Qed.

Lemma polls_app t1 t2 : polls (t1 ++ t2) = polls t1 + polls t2.
Proof.
  induction t1 as [|[l m|c] t1 IH]; simpl; [done|done|].
  destruct c as [| | | | | | | | | n |]; simpl; try done.
  do 6 (destruct n as [|n]; simpl; try done). by rewrite IH.
Qed.

Section Runs.
Context {A B : Type}.
Implicit Types (w : world) (st : state).

Lemma runs_ret w st (a : A) : runs (ret a) w st a (cache_file st) [].
Proof. unfold runs, ret. destruct st. simpl. by rewrite app_nil_r. Qed.

Lemma runs_bind (m : M A) (k : A → M B) w st a f1 e1 b f2 e2 :
  runs m w st a f1 e1 →
  runs (k a) w (State f1 (trace st ++ e1)) b f2 e2 →
  runs (bind m k) w st b f2 (e1 ++ e2).
Proof.
  unfold runs, bind. intros -> ->. simpl. by rewrite app_assoc.
Qed.

End Runs.

(** ** The existence check *)

Ltac unfold_os :=
  unfold os_path_exists, os_path_islink, os_path_realpath, os_stat,
    time_sleep, run_udevadm, run_shell, check_returncode, config_read,
    cache_file_exists, read_cache_file, write_cache_file, logging, emit,
    ask, lift, raise, ret;
  unfold try_except, bind.

Ltac frame_trace :=
  simpl; rewrite <- ?app_assoc; simpl; try reflexivity.

Ltac quiet := simpl; repeat split; reflexivity.

Lemma device_exists_eq w st p :
  ∃ evs,
    runs (device_exists p) w st
      (path_exists w p
       && (if path_islink w p then path_exists w (path_realpath w p) else true)
       && bool_decide (path_stat w p = None))
      (cache_file st) evs
    ∧ saves evs = [] ∧ polls evs = 0 ∧ head evs = Some (Sys (PathExists p)).
Proof.
  unfold runs, device_exists. unfold_os. simpl.
  destruct (path_exists w p); simpl;
    [destruct (path_islink w p); simpl;
     [destruct (path_exists w (path_realpath w p)); simpl|];
     try (destruct (path_stat w p) as [[]|]; simpl)|];
    eexists; (split; [frame_trace|done]).
Qed.

Lemma device_exists_runs w st p :
  ∃ evs,
    runs (device_exists p) w st (node_present w p) (cache_file st) evs
    ∧ saves evs = [] ∧ polls evs = 0 ∧ head evs = Some (Sys (PathExists p)).
Proof.
  unfold node_present.
  destruct (device_exists_eq w (initial NoFile) p) as (evs0 & -> & _).
  apply device_exists_eq.
Qed.

(** C7. [device_exists] gives a boolean and never raises; the boolean is
    true exactly when the path exists, the target of a symbolic link also
    exists, and [os.stat] succeeds, so every error of the operating system
    gives false. *)
Theorem device_exists_total_bool w st p :
  ∃ b evs,
    device_exists p w st = (Ret b, State (cache_file st) (trace st ++ evs))
    ∧ (b = true ↔
       path_exists w p = true
       ∧ (path_islink w p = true → path_exists w (path_realpath w p) = true)
       ∧ path_stat w p = None).
Proof.
  unfold device_exists. unfold_os. simpl.
  destruct (path_exists w p) eqn:E1; simpl;
    [destruct (path_islink w p) eqn:E2; simpl;
     [destruct (path_exists w (path_realpath w p)) eqn:E3; simpl|];
     try (destruct (path_stat w p) as [[]|] eqn:E4; simpl)|];
    eexists; eexists; (split; [frame_trace|]); intuition congruence.
Qed.

(** ** Bus-id extraction *)

Lemma search_bus_id_first (path : list ascii) :
  match Re.search_bus_id path with
  | Some m =>
      ∃ pre post,
        path = pre ++ m ++ post ∧ is_bus_id m ∧
        ∀ pre' m' post',
          path = pre' ++ m' ++ post' → is_bus_id m' →
          length pre ≤ length pre'
          ∧ (length pre' = length pre → length m' ≤ length m)
  | None =>
      ∀ pre' m' post', path = pre' ++ m' ++ post' → ¬ is_bus_id m'
  end.
Proof.
  unfold Re.search_bus_id.
  pose proof (ReFacts.search_leftmost_longest Re.bus_id_pattern path eq_refl) as H.
  destruct (Re.search Re.bus_id_pattern path) as [[i ps]|]; simpl.
  - destruct H as (Hi & Hok & [post Hpost] & Hfirst).
    exists (take i path), post. split_and!; [done| |].
    + apply is_bus_id_matches. by exists ps.
    + intros pre' m' post' Hp Hm'.
      apply is_bus_id_matches in Hm' as (ps' & Hok' & <-).
      rewrite length_take, Nat.min_l by done. by apply (Hfirst _ _ post').
  - intros pre' m' post' Hp Hm'.
    apply is_bus_id_matches in Hm' as (ps' & Hok' & <-).
    by apply (H pre' ps' post').
Qed.

Lemma get_bus_id_eq w st device :
  ∃ evs,
    runs (get_bus_id device) w st (queried w device) (cache_file st) evs
    ∧ saves evs = [] ∧ polls evs = 0.
Proof.
  unfold runs, get_bus_id, queried. unfold_os. simpl.
  destruct (udevadm_info w device) as [[rc out]|e]; simpl.
  - destruct (rc =? 0)%Z; simpl.
    + destruct (Re.search_bus_id _); simpl; eexists; (split; [frame_trace|quiet]).
    + eexists; (split; [frame_trace|quiet]).
  - destruct e; simpl; eexists; (split; [frame_trace|quiet]).
Qed.

(** An extracted bus id is never the empty string, so [if bus_id:] only
    tells a match from [None]. *)
Lemma queried_truthy w device : truthy (queried w device) = queried w device.
Proof.
  unfold queried.
  destruct (udevadm_info w device) as [[rc out]|e]; [|done].
  destruct (rc =? 0)%Z; [|done].
  pose proof (search_bus_id_first (Re.strip (String.list_ascii_of_string out))) as H.
  destruct (Re.search_bus_id _) as [m|]; [|done]. simpl.
  destruct H as (_ & _ & _ & (a & b & c & d & -> & [Ha _] & _) & _).
  by destruct a as [|x a].
Qed.

Lemma get_bus_id_runs w st device :
  ∃ evs,
    runs (get_bus_id device) w st (queried w device) (cache_file st) evs
    ∧ saves evs = [] ∧ polls evs = 0
    ∧ detected w device = queried w device.
Proof.
  destruct (get_bus_id_eq w st device) as (evs & H & Hs & Hp).
  exists evs. split_and!; try done.
  unfold detected.
  destruct (get_bus_id_eq w (initial NoFile) device) as (evs0 & -> & _).
  apply queried_truthy.
Qed.

(** C4. The pattern match of [get_bus_id] returns the first substring of
    the canonical path that is spelled digits, [-], digits or dots, [:],
    digits, [.], digits (the one that starts first, and the longest that
    starts there); a path with no such substring gives no match.  Around
    it, [get_bus_id] returns that substring of the stripped output of a
    successful [udevadm] query, and [None] in every other case. *)
Theorem bus_id_extraction_first_match :
  (∀ path : list ascii,
     match Re.search_bus_id path with
     | Some m =>
         ∃ pre post,
           path = pre ++ m ++ post ∧ is_bus_id m ∧
           ∀ pre' m' post',
             path = pre' ++ m' ++ post' → is_bus_id m' →
             length pre ≤ length pre'
             ∧ (length pre' = length pre → length m' ≤ length m)
     | None =>
         ∀ pre' m' post', path = pre' ++ m' ++ post' → ¬ is_bus_id m'
     end)
  ∧ (∀ w st device,
       (get_bus_id device w st).1 =
       Ret (match udevadm_info w device with
            | Ret (rc, out) =>
                if (rc =? 0)%Z
                then String.string_of_list_ascii
                       <$> Re.search_bus_id
                             (Re.strip (String.list_ascii_of_string out))
                else None
            | Raise _ => None
            end)).
Proof.
  split.
  - apply search_bus_id_first.
  - intros w st device.
    destruct (get_bus_id_eq w st device) as (evs & -> & _). done.
Qed.

(** ** The configuration reader *)

Lemma device_pattern_pieces ps :
  Forall2 Re.item_ok Re.device_pattern ps →
  ∃ p, ps = ((λ c, [c]) <$> device_key) ++ [p] ∧ path_text p.
Proof.
  intros Hok. unfold Re.device_pattern in Hok. simpl in Hok.
  repeat match goal with
         | H : Forall2 _ (_ :: _) _ |- _ => inversion H; subst; clear H
         | H : Forall2 _ [] _ |- _ => inversion H; subst; clear H
         end.
  simpl in *. subst. eexists. split; [reflexivity|done].
Qed.

Lemma not_path_char_terminates c :
  Re.is_path_char c = false → Re.is_space c = true ∨ c = "!"%char.
Proof.
  unfold Re.is_path_char. intros H. apply negb_false_iff, orb_true_iff in H.
  destruct H as [H|H]; [by left|right]. by apply Ascii.eqb_eq.
Qed.

Lemma search_device_first_token (value : list ascii) :
  match Re.search_device value with
  | Some p =>
      ∃ pre post,
        value = pre ++ device_key ++ p ++ post ∧ path_text p ∧ terminated post ∧
        ∀ pre' p' post',
          value = pre' ++ device_key ++ p' ++ post' → path_text p' →
          length pre ≤ length pre'
  | None =>
      ∀ pre' p' post',
        value = pre' ++ device_key ++ p' ++ post' → ¬ path_text p'
  end.
Proof.
  unfold Re.search_device.
  pose proof (ReFacts.search_leftmost_longest Re.device_pattern value eq_refl) as H.
  destruct (Re.search Re.device_pattern value) as [[i ps]|]; simpl.
  - destruct H as (Hi & Hok & [post Hpost] & Hfirst).
    apply device_pattern_pieces in Hok as (p & -> & Hp).
    assert (Hcat : concat (((λ c, [c]) <$> device_key) ++ [p]) = device_key ++ p).
    { simpl. by rewrite app_nil_r. }
    rewrite Hcat in Hpost, Hfirst.
    replace (concat (drop 7 (((λ c, [c]) <$> device_key) ++ [p]))) with p
      by (simpl; by rewrite app_nil_r).
    exists (take i value), post. split_and!.
    + by rewrite <- app_assoc in Hpost.
    + done.
    + destruct post as [|c post']; [done|]. simpl.
      destruct (Re.is_path_char c) eqn:Hc; [|by apply not_path_char_terminates].
      exfalso.
      assert (Hp' : path_text (p ++ [c])).
      { destruct Hp as [Hne Hall]. split; [by destruct p|].
        apply Forall_app. split; [done|]. by constructor. }
      destruct (proj2 (device_token_matches (device_key ++ p ++ [c])))
        as (ps' & Hok' & Hcat'); [by exists (p ++ [c])|].
      destruct (Hfirst (take i value) ps' post') as [_ Hlong]; [|done|].
      * rewrite Hcat'. rewrite Hpost at 1.
        rewrite <- !app_assoc. done.
      * rewrite Hcat', length_take, Nat.min_l in Hlong by done.
        specialize (Hlong eq_refl).
        rewrite !length_app in Hlong. simpl in Hlong. lia.
    + intros pre' p' post' Hv Hp'.
      destruct (proj2 (device_token_matches (device_key ++ p')))
        as (ps' & Hok' & Hcat'); [by exists p'|].
      rewrite length_take, Nat.min_l by done.
      apply (Hfirst pre' ps' post'); [|done].
      rewrite Hcat'. by rewrite <- app_assoc.
  - intros pre' p' post' Hv Hp'.
    destruct (proj2 (device_token_matches (device_key ++ p')))
      as (ps' & Hok' & Hcat'); [by exists p'|].
    apply (H pre' ps' post'); [|done].
    rewrite Hcat'. by rewrite <- app_assoc.
Qed.

Lemma parse_entry_Ret k v acc w st :
  parse_entry (k, Ret v) acc w st
  = (Ret (match extract_path (k, v) with
          | Some p => acc ++ [p]
          | None => acc
          end), st).
Proof.
  unfold parse_entry, extract_path, bind, lift, ret. simpl.
  destruct (startswith k "camera"); [|done].
  by destruct (Re.search_device _).
Qed.

Lemma for_each_parse_entry items acc w st :
  match fetched items with
  | Some entries =>
      for_each items parse_entry acc w st
      = (Ret (acc ++ omap extract_path entries), st)
  | None => ∃ e, for_each items parse_entry acc w st = (Raise e, st)
  end.
Proof.
  revert acc.
  induction items as [|[k [v|e]] items IH]; intros acc; cbn [fetched for_each].
  - unfold ret. by rewrite app_nil_r.
  - unfold bind. rewrite parse_entry_Ret.
    destruct (extract_path (k, v)) as [p|] eqn:E.
    + specialize (IH (acc ++ [p])).
      destruct (fetched items); simpl; [|done].
      rewrite IH, E. by rewrite <- app_assoc.
    + specialize (IH acc).
      destruct (fetched items); simpl; [|done]. by rewrite IH, E.
  - exists e. done.
Qed.

Lemma parse_camera_devices_eq w st ini_path :
  ∃ evs,
    runs (parse_camera_devices ini_path) w st
      (camera_devices (ini_file w ini_path)) (cache_file st) evs
    ∧ saves evs = [] ∧ polls evs = 0.
Proof.
  unfold runs, parse_camera_devices, camera_devices.
  unfold_os. simpl.
  destruct (ini_file w ini_path) as [cfg|e]; simpl.
  - destruct (config_section "plugin" cfg) as [items|]; simpl.
    + pose proof (for_each_parse_entry items []
                    w (State (cache_file st) (trace st ++ [Sys (ReadIni ini_path)])))
        as H.
      destruct (fetched items) as [entries|].
      * rewrite H. simpl. eexists. split; [frame_trace|quiet].
      * destruct H as [e ->]. simpl. eexists. split; [frame_trace|quiet].
    + eexists. split; [frame_trace|quiet].
  - eexists. split; [frame_trace|quiet].
Qed.

Lemma parse_camera_devices_runs w st :
  ∃ evs,
    runs (parse_camera_devices default_ini_path) w st (configured w)
      (cache_file st) evs
    ∧ saves evs = [] ∧ polls evs = 0.
Proof.
  unfold configured.
  destruct (parse_camera_devices_eq w (initial NoFile) default_ini_path)
    as (evs0 & -> & _).
  apply parse_camera_devices_eq.
Qed.

(** C5. The Configuration Reader returns, in order, the paths of the
    entries of the plugin section whose key starts with [camera] and whose
    value holds a [device=<path>] token, skipping the other entries, and it
    returns the empty sequence, without raising, when the source cannot be
    read or parsed.  The path taken from a value is the one of its first
    [device=<path>] token: the run of characters after [device=] up to
    whitespace, [!] or the end of the value. *)
Theorem parse_camera_devices_reads_camera_entries :
  (∀ w st ini_path,
     ∃ evs,
       parse_camera_devices ini_path w st
       = (Ret (camera_devices (ini_file w ini_path)),
          State (cache_file st) (trace st ++ evs)))
  ∧ (∀ value : list ascii,
       match Re.search_device value with
       | Some p =>
           ∃ pre post,
             value = pre ++ device_key ++ p ++ post
             ∧ path_text p ∧ terminated post ∧
             ∀ pre' p' post',
               value = pre' ++ device_key ++ p' ++ post' → path_text p' →
               length pre ≤ length pre'
       | None =>
           ∀ pre' p' post',
             value = pre' ++ device_key ++ p' ++ post' → ¬ path_text p'
       end).
Proof.
  split.
  - intros w st ini_path.
    destruct (parse_camera_devices_eq w st ini_path) as (evs & H & _).
    by exists evs.
  - apply search_device_first_token.
Qed.

(** ** The identity cache *)

Lemma load_cache_runs w st :
  ∃ evs,
    runs load_cache w st (loaded (cache_file st)) (cache_file st) evs
    ∧ saves evs = [] ∧ polls evs = 0.
Proof.
  unfold runs, load_cache, loaded. unfold_os. destruct st as [f t]. simpl.
  destruct f as [|e|m]; simpl; eexists; (split; [frame_trace|quiet]).
Qed.

Lemma save_cache_runs w st c :
  ∃ logs,
    runs (save_cache c) w st tt
      (match cache_write_error w with
       | None => Contents c
       | Some _ =>
           after_failed_write (cache_write_damage w) (cache_file st) c
       end)
      (Sys (WriteCache c) :: logs)
    ∧ saves logs = [] ∧ polls logs = 0.
Proof.
  unfold runs, save_cache. unfold_os. simpl.
  destruct (cache_write_error w) as [[]|]; simpl;
    eexists; (split; [frame_trace|quiet]).
Qed.

(** ** Resolving one device *)

Lemma resolve_eq w st device l :
  ∃ evs,
    runs (resolve device l) w st (resolve_outcome w l device) (cache_file st) evs
    ∧ saves evs = [] ∧ polls evs = 0 ∧ head evs = Some (Sys (PathExists device)).
Proof.
  destruct (device_exists_runs w st device) as (e1 & H1 & Hs1 & Hp1 & Hh1).
  unfold resolve, resolve_outcome.
  destruct (node_present w device).
  - destruct (get_bus_id_runs w (State (cache_file st) (trace st ++ e1)) device)
      as (e2 & H2 & Hs2 & Hp2 & Hd).
    rewrite Hd. pose proof (queried_truthy w device) as Ht.
    destruct (queried w device) as [b|] eqn:Eq.
    + exists (e1 ++ e2 ++ [Log INFO (MsgMapped device b)]).
      split_and!.
      * eapply runs_bind; [exact H1|]. simpl.
        eapply runs_bind; [exact H2|]. cbv beta. rewrite Ht.
        unfold runs, bind, logging, emit, ret. simpl.
        destruct (decide (cache l !! device = Some b));
          destruct (decide (cache l !! device ≠ Some b)); done.
      * by rewrite !saves_app, Hs1, Hs2.
      * by rewrite !polls_app, Hp1, Hp2.
      * destruct e1; [done|]. done.
    + exists (e1 ++ e2 ++ [Log WARNING (MsgNotDetected device)]).
      split_and!.
      * eapply runs_bind; [exact H1|]. simpl.
        eapply runs_bind; [exact H2|]. cbv beta. rewrite Ht. done.
      * by rewrite !saves_app, Hs1, Hs2.
      * by rewrite !polls_app, Hp1, Hp2.
      * destruct e1; [done|]. done.
  - destruct (cache l !! device) as [b|] eqn:Ec.
    + exists (e1 ++ [Log INFO (MsgFromCache device b)]).
      split_and!.
      * eapply runs_bind; [exact H1|]. done.
      * by rewrite !saves_app, Hs1.
      * by rewrite !polls_app, Hp1.
      * destruct e1; [done|]. done.
    + exists (e1 ++ [Log WARNING (MsgNoCachedBusId device)]).
      split_and!.
      * eapply runs_bind; [exact H1|]. done.
      * by rewrite !saves_app, Hs1.
      * by rewrite !polls_app, Hp1.
      * destruct e1; [done|]. done.
Qed.

Lemma resolved_eq w l device : resolved w l device = resolve_outcome w l device.
Proof.
  unfold resolved.
  by destruct (resolve_eq w (initial NoFile) device l) as (evs & -> & _).
Qed.

(** ** Building the camera map *)

Lemma for_each_resolve_runs w st devices l :
  ∃ evs,
    runs (for_each devices resolve l) w st
      (foldl (resolved w) l devices) (cache_file st) evs
    ∧ saves evs = [] ∧ polls evs = 0
    ∧ ∀ d, d ∈ devices → In (Sys (PathExists d)) evs.
Proof.
  revert st l. induction devices as [|d devices IH]; intros st l.
  - exists []. split_and!; [apply runs_ret|done|done|].
    intros d Hd. by apply elem_of_nil in Hd.
  - destruct (resolve_eq w st d l) as (e1 & H1 & Hs1 & Hp1 & Hh1).
    rewrite <- resolved_eq in H1.
    destruct (IH (State (cache_file st) (trace st ++ e1)) (resolved w l d))
      as (e2 & H2 & Hs2 & Hp2 & Hin).
    exists (e1 ++ e2). split_and!.
    + simpl. eapply runs_bind; [exact H1|exact H2].
    + by rewrite saves_app, Hs1, Hs2.
    + by rewrite polls_app, Hp1, Hp2.
    + intros d' Hd'. apply in_or_app. apply elem_of_cons in Hd' as [->|Hd'].
      * left. destruct e1; [done|]. simpl in Hh1. injection Hh1 as ->. by left.
      * right. by apply Hin.
Qed.

Lemma build_camera_map_runs w st :
  ∃ evs,
    runs build_camera_map w st
      (camera_map (final_locals w (cache_file st)))
      (final_file w (cache_file st)) evs
    ∧ saves evs = (if cache_updated (final_locals w (cache_file st))
                   then [cache (final_locals w (cache_file st))] else [])
    ∧ polls evs = 0
    ∧ ∀ d, d ∈ configured w → In (Sys (PathExists d)) evs.
Proof.
  destruct (parse_camera_devices_runs w st) as (e1 & H1 & Hs1 & Hp1).
  destruct (load_cache_runs w (State (cache_file st) (trace st ++ e1)))
    as (e2 & H2 & Hs2 & Hp2). simpl in H2.
  destruct (for_each_resolve_runs w
              (State (cache_file st) ((trace st ++ e1) ++ e2))
              (configured w) (Locals [] (loaded (cache_file st)) false))
    as (e3 & H3 & Hs3 & Hp3 & Hin). simpl in H3.
  fold (final_locals w (cache_file st)) in H3.
  unfold final_file. unfold build_camera_map.
  destruct (cache_updated (final_locals w (cache_file st))) eqn:Hu.
  - destruct (save_cache_runs w
                (State (cache_file st) (((trace st ++ e1) ++ e2) ++ e3))
                (cache (final_locals w (cache_file st))))
      as (logs & H4 & Hs4 & Hp4). simpl in H4.
    exists (e1 ++ e2 ++ e3
            ++ (Sys (WriteCache (cache (final_locals w (cache_file st)))) :: logs)
            ++ []).
    split_and!.
    + eapply runs_bind; [exact H1|]. eapply runs_bind; [exact H2|].
      eapply runs_bind; [exact H3|]. rewrite Hu. simpl.
      unfold runs in H4 |- *. unfold bind. rewrite H4.
      unfold ret. simpl. by rewrite app_nil_r.
    + rewrite !saves_app, Hs1, Hs2, Hs3. simpl. by rewrite Hs4.
    + rewrite !polls_app, Hp1, Hp2, Hp3. simpl. by rewrite Hp4.
    + intros d Hd. apply in_or_app. right. apply in_or_app. right.
      apply in_or_app. left. by apply Hin.
  - exists (e1 ++ e2 ++ e3 ++ [] ++ []).
    split_and!.
    + eapply runs_bind; [exact H1|]. eapply runs_bind; [exact H2|].
      eapply runs_bind; [exact H3|]. rewrite Hu. simpl.
      unfold runs, bind, ret. simpl. by rewrite !app_nil_r.
    + by rewrite !saves_app, Hs1, Hs2, Hs3.
    + by rewrite !polls_app, Hp1, Hp2, Hp3.
    + intros d Hd. apply in_or_app. right. apply in_or_app. right.
      apply in_or_app. left. by apply Hin.
Qed.

Lemma dict_get_set_eq k v d : dict_get k (dict_set k v d) = Some v.
Proof.
  induction d as [|[k' v'] d IH]; simpl.
  - by rewrite decide_True.
  - destruct (decide (k = k')); simpl.
    + by rewrite decide_True.
    + by rewrite decide_False.
Qed.

Lemma dict_get_set_ne k k' v d :
  k ≠ k' → dict_get k (dict_set k' v d) = dict_get k d.
Proof.
  intros Hne. induction d as [|[k'' v''] d IH]; simpl.
  - by rewrite decide_False.
  - destruct (decide (k' = k'')) as [->|]; simpl.
    + by rewrite !decide_False.
    + destruct (decide (k = k'')); [done|]. apply IH.
Qed.

Section Turn.
Variable w : world.
Implicit Types (l : locals) (d k : string).

Lemma turn_cache l d k :
  cache (resolve_outcome w l d) !! k =
  if decide (k = d)
  then match live_bus_id w d with
       | Some b => Some b
       | None => cache l !! k
       end
  else cache l !! k.
Proof.
  unfold resolve_outcome, live_bus_id.
  destruct (node_present w d).
  - destruct (detected w d) as [b|]; [|by case_decide].
    destruct (decide (cache l !! d = Some b)) as [Hc|Hc]; simpl.
    + case_decide; [by subst|done].
    + case_decide; [subst; apply lookup_insert_eq|by apply lookup_insert_ne].
  - destruct (cache l !! d); by case_decide.
Qed.

Lemma turn_camera_map l d k :
  dict_get k (camera_map (resolve_outcome w l d)) =
  if decide (k = d)
  then match expected w (cache l) d with
       | Some b => Some b
       | None => dict_get k (camera_map l)
       end
  else dict_get k (camera_map l).
Proof.
  unfold resolve_outcome, expected, live_bus_id.
  destruct (node_present w d).
  - destruct (detected w d) as [b|]; [|by case_decide].
    destruct (decide (cache l !! d = Some b)); simpl;
      (case_decide; [subst; apply dict_get_set_eq|by apply dict_get_set_ne]).
  - destruct (cache l !! d); [|by case_decide]. simpl.
    case_decide; [subst; apply dict_get_set_eq|by apply dict_get_set_ne].
Qed.

Lemma turn_updated l d :
  cache_updated (resolve_outcome w l d) =
  match live_bus_id w d with
  | Some b => if decide (cache l !! d = Some b) then cache_updated l else true
  | None => cache_updated l
  end.
Proof.
  unfold resolve_outcome, live_bus_id.
  destruct (node_present w d).
  - destruct (detected w d) as [b|]; [|done]. by case_decide.
  - by destruct (cache l !! d).
Qed.

(** A turn never changes what a later turn expects for any device. *)
Lemma turn_expected l d k :
  expected w (cache (resolve_outcome w l d)) k = expected w (cache l) k.
Proof.
  unfold expected. destruct (live_bus_id w k) as [b|] eqn:E; [done|].
  destruct (node_present w k); [done|].
  rewrite turn_cache. case_decide; [subst; by rewrite E|done].
Qed.

Lemma loop_cache devices l k :
  cache (foldl (resolved w) l devices) !! k =
  if decide (k ∈ devices)
  then match live_bus_id w k with
       | Some b => Some b
       | None => cache l !! k
       end
  else cache l !! k.
Proof.
  revert l. induction devices as [|d devices IH]; intros l; simpl.
  - done.
  - rewrite IH, resolved_eq, turn_cache.
    destruct (decide (k = d)) as [->|Hne].
    + rewrite (decide_True (P := d ∈ d :: devices)) by apply list_elem_of_here.
      destruct (live_bus_id w d); by case_decide.
    + destruct (decide (k ∈ devices)) as [Hin|Hin].
      * by rewrite decide_True by (by apply list_elem_of_further).
      * rewrite decide_False; [done|].
        intros [?|?]%elem_of_cons; done.
Qed.

Lemma loop_camera_map devices l k :
  dict_get k (camera_map (foldl (resolved w) l devices)) =
  if decide (k ∈ devices)
  then match expected w (cache l) k with
       | Some b => Some b
       | None => dict_get k (camera_map l)
       end
  else dict_get k (camera_map l).
Proof.
  revert l. induction devices as [|d devices IH]; intros l; simpl.
  - done.
  - rewrite IH, resolved_eq, turn_expected, turn_camera_map.
    destruct (decide (k = d)) as [->|Hne].
    + rewrite (decide_True (P := d ∈ d :: devices)) by apply list_elem_of_here.
      destruct (expected w (cache l) d); by case_decide.
    + destruct (decide (k ∈ devices)) as [Hin|Hin].
      * by rewrite decide_True by (by apply list_elem_of_further).
      * rewrite decide_False; [done|].
        intros [?|?]%elem_of_cons; done.
Qed.

Lemma loop_updated_mono devices l :
  cache_updated l = true →
  cache_updated (foldl (resolved w) l devices) = true.
Proof.
  revert l. induction devices as [|d devices IH]; intros l Hl; simpl; [done|].
  apply IH. rewrite resolved_eq, turn_updated.
  destruct (live_bus_id w d); [by case_decide|done].
Qed.

(** No device with a fresh bus id that differs from the cache: the loop
    leaves the cache and the flag as they were. *)
Lemma loop_unchanged devices l :
  (∀ d, d ∈ devices →
        live_bus_id w d = None ∨ live_bus_id w d = cache l !! d) →
  cache (foldl (resolved w) l devices) = cache l
  ∧ cache_updated (foldl (resolved w) l devices) = cache_updated l.
Proof.
  revert l. induction devices as [|d devices IH]; intros l H; simpl; [done|].
  assert (Hd : live_bus_id w d = None ∨ live_bus_id w d = cache l !! d).
  { apply H, list_elem_of_here. }
  assert (Hc : cache (resolved w l d) = cache l).
  { apply map_eq. intros k. rewrite resolved_eq, turn_cache.
    case_decide; [subst|done].
    destruct Hd as [->| ->]; [done|]. by destruct (cache l !! d). }
  assert (Hu : cache_updated (resolved w l d) = cache_updated l).
  { rewrite resolved_eq, turn_updated.
    destruct Hd as [->|Hd]; [done|].
    destruct (live_bus_id w d) as [b|]; [|done]. by rewrite decide_True. }
  destruct (IH (resolved w l d)) as [H1 H2].
  - intros d' Hd'. rewrite Hc. apply H. by apply list_elem_of_further.
  - by rewrite H1, H2, Hc, Hu.
Qed.

(** A configured device with a fresh bus id that differs from the cache
    marks the cache updated. *)
Lemma loop_refresh devices l d b :
  d ∈ devices → live_bus_id w d = Some b → cache l !! d ≠ Some b →
  cache_updated (foldl (resolved w) l devices) = true.
Proof.
  revert l. induction devices as [|x devices IH]; intros l Hin Hlive Hc.
  - by apply elem_of_nil in Hin.
  - simpl. destruct (decide (x = d)) as [->|Hne].
    + apply loop_updated_mono. rewrite resolved_eq, turn_updated, Hlive.
      by rewrite decide_False.
    + apply IH; [|done|].
      * apply elem_of_cons in Hin as [?|?]; [by subst|done].
      * rewrite resolved_eq, turn_cache. by rewrite decide_False.
Qed.
End Turn.

(** ** The camera map and the cache after [build_camera_map] *)

Example sample_world_configured :
  configured sample_world = ["/dev/video0"; "/dev/video2"].
Proof. vm_compute. reflexivity. Qed.

Example sample_world_build :
  (build_camera_map sample_world (initial sample_cache)).1
  = Ret [("/dev/video0", "1-2:1.0"); ("/dev/video2", "1-3:1.0")].
Proof. vm_compute. reflexivity. Qed.

(** What [build_camera_map] returns, with what it leaves behind. *)
Lemma build_camera_map_result w st :
  ∃ evs,
    build_camera_map w st
    = (Ret (camera_map (final_locals w (cache_file st))),
       State (final_file w (cache_file st)) (trace st ++ evs))
    ∧ saves evs = (if cache_updated (final_locals w (cache_file st))
                   then [cache (final_locals w (cache_file st))] else [])
    ∧ ∀ d, d ∈ configured w → In (Sys (PathExists d)) evs.
Proof.
  destruct (build_camera_map_runs w st) as (evs & H & Hs & _ & Hin).
  by exists evs.
Qed.

Lemma final_camera_map w f d :
  dict_get d (camera_map (final_locals w f)) =
  if decide (d ∈ configured w) then expected w (loaded f) d else None.
Proof.
  unfold final_locals. rewrite loop_camera_map. simpl.
  case_decide; [|done]. by destruct (expected w (loaded f) d).
Qed.

Lemma final_cache w f k :
  cache (final_locals w f) !! k =
  if decide (k ∈ configured w)
  then match live_bus_id w k with
       | Some b => Some b
       | None => loaded f !! k
       end
  else loaded f !! k.
Proof. unfold final_locals. by rewrite loop_cache. Qed.

(** C1, as stated: a configured path is in the camera map exactly when
    live detection succeeded or the cache had an entry for it.  It fails
    where the node is there, the bus id query fails and the cache has an
    entry: the entry is not used. *)
Lemma cached_entry_unused_while_node_present :
  "/dev/video0" ∈ configured undetected_world
  ∧ ∃ cm st',
      build_camera_map undetected_world (initial video0_cache) = (Ret cm, st')
      ∧ ¬ (is_Some (dict_get "/dev/video0" cm)
           ↔ is_Some (live_bus_id undetected_world "/dev/video0")
             ∨ is_Some (loaded video0_cache !! "/dev/video0")).
Proof.
  split.
  - apply list_elem_of_In. vm_compute. by left.
  - eexists. eexists. split; [vm_compute; reflexivity|].
    intros [_ H]. destruct H as [x Hx].
    + right. vm_compute. eauto.
    + vm_compute in Hx. discriminate Hx.
Qed.

(** C1, amended.  Every configured path is probed by [build_camera_map],
    and it is in the camera map exactly when live detection succeeded (the
    node exists and [get_bus_id] gave an identifier) or the node does not
    exist and the cache had an entry for the path. *)
Theorem camera_map_membership w st d :
  d ∈ configured w →
  ∃ cm f evs,
    build_camera_map w st = (Ret cm, State f (trace st ++ evs))
    ∧ In (Sys (PathExists d)) evs
    ∧ (is_Some (dict_get d cm)
       ↔ is_Some (live_bus_id w d)
         ∨ (node_present w d = false
            ∧ is_Some (loaded (cache_file st) !! d))).
Proof.
  intros Hd. destruct (build_camera_map_result w st) as (evs & H & _ & Hin).
  eexists _, _, evs. split_and!; [exact H|by apply Hin|].
  rewrite final_camera_map, decide_True by done. unfold expected.
  destruct (live_bus_id w d) as [b|].
  - split; [intros _; left|]; eauto.
  - destruct (node_present w d).
    + split; [by intros [? ?]|]. intros [[? ?]|[? _]]; done.
    + split; [by right|]. intros [[? ?]|[_ ?]]; done.
Qed.

Lemma camera_map_membership_witness :
  ∃ cm f evs,
    build_camera_map sample_world (initial sample_cache)
    = (Ret cm, State f (trace (initial sample_cache) ++ evs))
    ∧ In (Sys (PathExists "/dev/video2")) evs
    ∧ (is_Some (dict_get "/dev/video2" cm)
       ↔ is_Some (live_bus_id sample_world "/dev/video2")
         ∨ (node_present sample_world "/dev/video2" = false
            ∧ is_Some (loaded (cache_file (initial sample_cache))
                       !! "/dev/video2"))).
Proof.
  apply (camera_map_membership sample_world (initial sample_cache) "/dev/video2").
  apply list_elem_of_In. vm_compute. right. left. reflexivity.
Defined.

(** C2. A configured path whose node is missing and that has a cache entry
    gets the cached bus id in the camera map; its turn of the loop changes
    neither the cache nor the updated flag, and the entry is still in the
    cache when the loop is over. *)
Theorem cache_fallback_keeps_cache w st d b :
  d ∈ configured w →
  node_present w d = false →
  loaded (cache_file st) !! d = Some b →
  (∃ cm f evs,
     build_camera_map w st = (Ret cm, State f (trace st ++ evs))
     ∧ dict_get d cm = Some b)
  ∧ cache (final_locals w (cache_file st)) !! d = Some b
  ∧ ∀ l st',
      cache l !! d = Some b →
      ∃ l' evs,
        resolve d l w st' = (Ret l', State (cache_file st') (trace st' ++ evs))
        ∧ dict_get d (camera_map l') = Some b
        ∧ cache l' = cache l
        ∧ cache_updated l' = cache_updated l
        ∧ saves evs = [].
Proof.
  intros Hd Hnode Hc.
  assert (Hlive : live_bus_id w d = None).
  { unfold live_bus_id. by rewrite Hnode. }
  split_and!.
  - destruct (build_camera_map_result w st) as (evs & H & _).
    eexists _, _, evs. split; [exact H|].
    rewrite final_camera_map, decide_True by done.
    unfold expected. by rewrite Hlive, Hnode.
  - rewrite final_cache, Hlive. by case_decide.
  - intros l st' Hl.
    destruct (resolve_eq w st' d l) as (evs & H & Hs & _).
    eexists _, evs. split; [exact H|].
    unfold resolve_outcome. rewrite Hnode, Hl. simpl.
    split_and!; try done. apply dict_get_set_eq.
Qed.

Lemma cache_fallback_keeps_cache_witness :
  (∃ cm f evs,
     build_camera_map sample_world (initial sample_cache)
     = (Ret cm, State f (trace (initial sample_cache) ++ evs))
     ∧ dict_get "/dev/video2" cm = Some "1-3:1.0")
  ∧ cache (final_locals sample_world (cache_file (initial sample_cache)))
      !! "/dev/video2" = Some "1-3:1.0"
  ∧ ∀ l st',
      cache l !! "/dev/video2" = Some "1-3:1.0" →
      ∃ l' evs,
        resolve "/dev/video2" l sample_world st'
        = (Ret l', State (cache_file st') (trace st' ++ evs))
        ∧ dict_get "/dev/video2" (camera_map l') = Some "1-3:1.0"
        ∧ cache l' = cache l
        ∧ cache_updated l' = cache_updated l
        ∧ saves evs = [].
Proof.
  apply (cache_fallback_keeps_cache sample_world (initial sample_cache)).
  - apply list_elem_of_In. vm_compute. right. left. reflexivity.
  - vm_compute. reflexivity.
  - vm_compute. reflexivity.
Defined.

(** C3. A configured path whose node exists and whose freshly detected
    bus id is not the cached value (or has no cached value) ends with the
    new bus id in the cache and the cache marked updated, and
    [build_camera_map] hands that cache to [save_cache] before it returns:
    exactly one write, of the final cache, which is the content of the
    cache file afterwards unless the write fails. *)
Theorem cache_refresh_is_saved w st d b :
  d ∈ configured w →
  live_bus_id w d = Some b →
  loaded (cache_file st) !! d ≠ Some b →
  ∃ cm f evs,
    build_camera_map w st = (Ret cm, State f (trace st ++ evs))
    ∧ dict_get d cm = Some b
    ∧ cache (final_locals w (cache_file st)) !! d = Some b
    ∧ cache_updated (final_locals w (cache_file st)) = true
    ∧ saves evs = [cache (final_locals w (cache_file st))]
    ∧ (cache_write_error w = None →
       f = Contents (cache (final_locals w (cache_file st)))).
Proof.
  intros Hd Hlive Hc.
  destruct (build_camera_map_result w st) as (evs & H & Hs & _).
  assert (Hu : cache_updated (final_locals w (cache_file st)) = true).
  { unfold final_locals. by eapply loop_refresh. }
  rewrite Hu in Hs.
  eexists _, _, evs. split_and!; [exact H| | |done|done|].
  - rewrite final_camera_map, decide_True by done.
    unfold expected. by rewrite Hlive.
  - rewrite final_cache, decide_True by done. by rewrite Hlive.
  - intros Hw. unfold final_file. by rewrite Hu, Hw.
Qed.

Lemma cache_refresh_is_saved_witness :
  ∃ cm f evs,
    build_camera_map sample_world (initial sample_cache)
    = (Ret cm, State f (trace (initial sample_cache) ++ evs))
    ∧ dict_get "/dev/video0" cm = Some "1-2:1.0"
    ∧ cache (final_locals sample_world (cache_file (initial sample_cache)))
        !! "/dev/video0" = Some "1-2:1.0"
    ∧ cache_updated (final_locals sample_world (cache_file (initial sample_cache)))
      = true
    ∧ saves evs
      = [cache (final_locals sample_world (cache_file (initial sample_cache)))]
    ∧ (cache_write_error sample_world = None →
       f = Contents
             (cache (final_locals sample_world
                       (cache_file (initial sample_cache))))).
Proof.
  apply (cache_refresh_is_saved sample_world (initial sample_cache)).
  - apply list_elem_of_In. vm_compute. left. reflexivity.
  - vm_compute. reflexivity.
  - vm_compute. discriminate.
Defined.

(** C9. No key leaves the cache: a key of the cache loaded at the start is
    kept by every turn of the loop, is in the cache when the loop is over,
    in every dictionary handed to [save_cache], and in the cache file
    afterwards. *)
Theorem cache_entries_never_deleted w st k :
  is_Some (loaded (cache_file st) !! k) →
  (∀ l d, is_Some (cache l !! k) → is_Some (cache (resolved w l d) !! k))
  ∧ ∃ cm f evs,
      build_camera_map w st = (Ret cm, State f (trace st ++ evs))
      ∧ is_Some (cache (final_locals w (cache_file st)) !! k)
      ∧ (∀ m, In m (saves evs) → is_Some (m !! k))
      ∧ (∀ m, f = Contents m → is_Some (m !! k)).
Proof.
  intros Hk. split.
  - intros l d Hl. rewrite resolved_eq, turn_cache.
    case_decide; [|done]. by destruct (live_bus_id w d).
  - destruct (build_camera_map_result w st) as (evs & H & Hs & _).
    assert (Hf : is_Some (cache (final_locals w (cache_file st)) !! k)).
    { rewrite final_cache. case_decide; [|done].
      by destruct (live_bus_id w k). }
    eexists _, _, evs. split_and!; [exact H|done| |].
    + intros m Hm. rewrite Hs in Hm.
      destruct (cache_updated _); [|done].
      destruct Hm as [<-|[]]. done.
    + intros m. unfold final_file.
      destruct (cache_updated _).
      * destruct (cache_write_error w).
        -- destruct (cache_write_damage w); simpl.
           ++ intros Hm. rewrite Hm in Hk. done.
           ++ done.
           ++ by intros [= <-].
        -- by intros [= <-].
      * intros Hm. rewrite Hm in Hk. done.
Qed.

Lemma cache_entries_never_deleted_witness :
  (∀ l d, is_Some (cache l !! "/dev/video2") →
          is_Some (cache (resolved sample_world l d) !! "/dev/video2"))
  ∧ ∃ cm f evs,
      build_camera_map sample_world (initial sample_cache)
      = (Ret cm, State f (trace (initial sample_cache) ++ evs))
      ∧ is_Some (cache (final_locals sample_world
                          (cache_file (initial sample_cache)))
                 !! "/dev/video2")
      ∧ (∀ m, In m (saves evs) → is_Some (m !! "/dev/video2"))
      ∧ (∀ m, f = Contents m → is_Some (m !! "/dev/video2")).
Proof.
  apply (cache_entries_never_deleted sample_world (initial sample_cache)).
  vm_compute. eexists. reflexivity.
Defined.

(** C10. [build_camera_map] writes the cache file at most once, and not at
    all when no entry changed: if no configured device has a fresh bus id
    that differs from the cached value, [save_cache] is never called and
    the cache file is left as it was. *)
Theorem cache_file_written_only_on_change w st :
  ∃ cm f evs,
    build_camera_map w st = (Ret cm, State f (trace st ++ evs))
    ∧ length (saves evs) ≤ 1
    ∧ ((∀ d, d ∈ configured w →
             live_bus_id w d = None
             ∨ live_bus_id w d = loaded (cache_file st) !! d) →
       saves evs = [] ∧ f = cache_file st).
Proof.
  destruct (build_camera_map_result w st) as (evs & H & Hs & _).
  eexists _, _, evs. split_and!; [exact H| |].
  - rewrite Hs. destruct (cache_updated _); simpl; lia.
  - intros Hsame.
    destruct (loop_unchanged w (configured w)
                (Locals [] (loaded (cache_file st)) false) Hsame) as [_ Hu].
    fold (final_locals w (cache_file st)) in Hu. simpl in Hu.
    unfold final_file. rewrite Hs, Hu. done.
Qed.

Lemma cache_file_written_only_on_change_witness :
  ∃ cm evs,
    build_camera_map sample_world (initial settled_cache)
    = (Ret cm, State settled_cache evs)
    ∧ saves evs = [].
Proof.
  destruct (cache_file_written_only_on_change sample_world (initial settled_cache))
    as (cm & f & evs & H & _ & Hsame).
  destruct Hsame as [Hs Hf].
  - intros d Hd. apply list_elem_of_In in Hd. vm_compute in Hd.
    destruct Hd as [<-|[<-|[]]]; [right|left]; vm_compute; reflexivity.
  - exists cm, evs. rewrite H, Hf. split; [reflexivity|exact Hs].
Defined.

(** ** Rebinding *)

Lemma ahead_steady w k : later w = None → ahead k w = w.
Proof.
  intros Hw. induction k as [|k IH]; [done|].
  simpl. rewrite IH. unfold tomorrow. by rewrite Hw.
Qed.

Lemma has_nul_append s t : has_nul (s +:+ t) = has_nul s || has_nul t.
Proof.
  unfold has_nul. induction s as [|a s IH]; simpl; [done|].
  by rewrite IH, orb_assoc.
Qed.

Lemma has_nul_unbind_command b : has_nul (unbind_command b) = has_nul b.
Proof.
  unfold unbind_command. rewrite !has_nul_append. by destruct (has_nul b).
Qed.

Lemma has_nul_bind_command b : has_nul (bind_command b) = has_nul b.
Proof.
  unfold bind_command. rewrite !has_nul_append. by destruct (has_nul b).
Qed.

(** A rebind whose two commands can be started: the six steps, whatever
    the exit status of either command. *)
Lemma rebind_device_runs w st bus_id :
  has_nul bus_id = false →
  shell_starts w →
  runs (rebind_device bus_id) w st true (cache_file st)
    [Log INFO (MsgRebinding bus_id);
     Sys (Shell (unbind_command bus_id)); Sys (SleepFor 2);
     Sys (Shell (bind_command bus_id)); Sys (SleepFor 3);
     Log INFO (MsgDoneRebinding bus_id)].
Proof.
  intros Hnul Hsh. unfold shell_starts in Hsh.
  unfold runs, rebind_device, run_shell.
  rewrite has_nul_unbind_command, has_nul_bind_command, Hnul.
  unfold now. unfold_os. simpl. repeat (rewrite Hsh; simpl).
  by rewrite <- !app_assoc.
Qed.

(** C6 at a failing input: the driver's [bind] file cannot be written, the
    bind pipeline exits with status 1, and [rebind_device] still returns
    [True] after the four steps, with "Done rebinding" as its last log line
    and no error logged. *)
Theorem rebind_device_reports_success_on_failed_bind :
  shell denied_world (bind_command "1-2:1.0") = 1%Z
  ∧ rebind_device "1-2:1.0" denied_world (initial sample_cache)
    = (Ret true,
       State sample_cache
         [Log INFO (MsgRebinding "1-2:1.0");
          Sys (Shell (unbind_command "1-2:1.0")); Sys (SleepFor 2);
          Sys (Shell (bind_command "1-2:1.0")); Sys (SleepFor 3);
          Log INFO (MsgDoneRebinding "1-2:1.0")]).
Proof.
  split; [reflexivity|].
  apply (rebind_device_runs denied_world (initial sample_cache) "1-2:1.0").
  - reflexivity.
  - intros k cmd. by rewrite ahead_steady.
Qed.

(** ** The examples of the specification *)

Example bus_id_of_sysfs_path :
  Re.search_bus_id
    (String.list_ascii_of_string
       "/devices/pci0000:00/usb3/3-2/3-2:1.0/video4linux/video0")
  = Some (String.list_ascii_of_string "3-2:1.0").
Proof. vm_compute. reflexivity. Qed.

Example bus_id_behind_a_hub :
  Re.search_bus_id
    (String.list_ascii_of_string
       "/devices/pci0000:00/0000:00:14.0/usb1/1-4/1-4.2/1-4.2:1.0/video4linux/video2")
  = Some (String.list_ascii_of_string "1-4.2:1.0").
Proof. vm_compute. reflexivity. Qed.

Example no_bus_id_in_platform_path :
  Re.search_bus_id
    (String.list_ascii_of_string "/devices/platform/vivid.0/video4linux/video5")
  = None.
Proof. vm_compute. reflexivity. Qed.

Example device_of_pipeline :
  extract_path ("camera1", "v4l2src device=/dev/video0 ! videoconvert")
  = Some "/dev/video0".
Proof. vm_compute. reflexivity. Qed.

Example device_at_end_of_value :
  extract_path ("camera_rear", "v4l2src device=/dev/v4l/by-id/rear")
  = Some "/dev/v4l/by-id/rear".
Proof. vm_compute. reflexivity. Qed.

Example microphone_is_skipped :
  camera_devices (Ret sample_config) = ["/dev/video0"; "/dev/video2"].
Proof. vm_compute. reflexivity. Qed.

Example unreadable_source_gives_no_device :
  (parse_camera_devices default_ini_path
     {| ini_file := λ _, Raise ConfigParserError;
        path_exists := λ _, true;
        path_islink := λ _, false;
        path_realpath := λ p, p;
        path_stat := λ _, None;
        udevadm_info := λ _, Raise FileNotFoundError;
        shell := λ _, 0%Z;
        shell_spawn_error := λ _, None;
        cache_write_error := None;
        cache_write_damage := Untouched;
        log_file_error := None;
        later := None |}
     (initial NoFile)).1
  = Ret [].
Proof. vm_compute. reflexivity. Qed.

(** End to end: [/dev/video0] is present at [1-2:1.0], [/dev/video2] is
    absent with the cache entry [1-3:1.0]; both are in the camera map and
    one poll cycle rebinds the absent one only. *)
Example end_to_end_one_cycle :
  ∃ st',
    main [] 1 sample_world (initial sample_cache) = (Ret Polling, st')
    ∧ shell_commands (trace st')
      = [unbind_command "1-3:1.0"; bind_command "1-3:1.0"].
Proof. eexists. split; vm_compute; reflexivity. Qed.

Example dangling_symlink_is_missing :
  node_present
    {| ini_file := λ _, Ret [];
       path_exists := λ p, bool_decide (p = "/dev/camera_front");
       path_islink := λ p, bool_decide (p = "/dev/camera_front");
       path_realpath := λ _, "/dev/video7";
       path_stat := λ _, None;
       udevadm_info := λ _, Raise FileNotFoundError;
       shell := λ _, 0%Z;
       shell_spawn_error := λ _, None;
       cache_write_error := None;
       cache_write_damage := Untouched;
       log_file_error := None;
       later := None |}
    "/dev/camera_front"
  = false.
Proof. vm_compute. reflexivity. Qed.

(** * Further properties of the code *)

(** ** The cache file: edge cases and round trips *)

Lemma load_cache_trace w st :
  load_cache w st
  = (Ret (loaded (cache_file st)),
     State (cache_file st)
       (trace st ++
        match cache_file st with
        | NoFile => [Sys (PathExists CACHE_FILE)]
        | Unreadable e =>
            [Sys (PathExists CACHE_FILE); Sys ReadCache;
             Log WARNING (MsgCacheLoadFailed e)]
        | Contents _ => [Sys (PathExists CACHE_FILE); Sys ReadCache]
        end)).
Proof.
  unfold load_cache, loaded. unfold_os. destruct st as [f t]. simpl.
  destruct f as [|e|m]; simpl; by rewrite <- ?app_assoc.
Qed.

Lemma save_cache_trace w st c :
  save_cache c w st
  = (Ret tt,
     match cache_write_error w with
     | None => State (Contents c) (trace st ++ [Sys (WriteCache c)])
     | Some err =>
         State (after_failed_write (cache_write_damage w) (cache_file st) c)
           (trace st ++ [Sys (WriteCache c);
                         Log WARNING (MsgCacheSaveFailed (raise_of err))])
     end).
Proof.
  unfold save_cache. unfold_os. simpl.
  destruct (cache_write_error w) as [[]|]; simpl; by rewrite <- ?app_assoc.
Qed.

(** X1. [load_cache] never raises and never touches the file.  It gives
    the stored dictionary when the file can be read and the empty one
    otherwise; a missing file is not even opened and logs nothing, an
    unreadable one logs exactly one warning. *)
Theorem load_cache_degrades_to_empty w st :
  ∃ evs,
    load_cache w st
    = (Ret (match cache_file st with Contents m => m | _ => ∅ end),
       State (cache_file st) (trace st ++ evs))
    ∧ saves evs = []
    ∧ logged ERROR evs = []
    ∧ logged WARNING evs
      = match cache_file st with
        | Unreadable e => [MsgCacheLoadFailed e]
        | _ => []
        end
    ∧ match cache_file st with
      | NoFile => evs = [Sys (PathExists CACHE_FILE)]
      | _ => In (Sys ReadCache) evs
      end.
Proof.
  eexists. split; [apply load_cache_trace|].
  destruct (cache_file st); simpl; split_and!; auto.
Qed.

(** X2. What [save_cache] wrote is what [load_cache] reads back: when the
    file can be written, saving a dictionary and loading again returns
    that dictionary, whatever the file held before. *)
Theorem save_then_load_round_trip w st c :
  cache_write_error w = None →
  ∃ evs,
    (save_cache c ;; load_cache) w st
    = (Ret c, State (Contents c) (trace st ++ evs))
    ∧ logged WARNING evs = [].
Proof.
  intros Hw. unfold bind. rewrite save_cache_trace, Hw, load_cache_trace.
  simpl. rewrite <- app_assoc. eexists. split; [reflexivity|done].
Qed.

Lemma save_then_load_round_trip_witness :
  ∃ evs,
    (save_cache {[ "/dev/video0" := "1-2:1.0" ]} ;; load_cache)
      sample_world (initial sample_cache)
    = (Ret {[ "/dev/video0" := "1-2:1.0" ]},
       State (Contents {[ "/dev/video0" := "1-2:1.0" ]})
         (trace (initial sample_cache) ++ evs))
    ∧ logged WARNING evs = [].
Proof.
  apply (save_then_load_round_trip sample_world (initial sample_cache)).
  reflexivity.
Defined.

(** X3. A failed write is swallowed, but not always harmless:
    [save_cache] returns normally and logs one warning, and a later
    [load_cache] reads what the failed write left.  When
    [open(CACHE_FILE, "w")] itself failed the file is as it was and the
    old content is loaded.  When the failure came after [open] had
    succeeded, the old content is lost: a file left empty or cut off makes
    [load_cache] log a second warning and give the empty dictionary. *)
Theorem save_cache_failure_is_swallowed w st c err :
  cache_write_error w = Some err →
  save_cache c w st
  = (Ret tt,
     State (after_failed_write (cache_write_damage w) (cache_file st) c)
       (trace st ++ [Sys (WriteCache c);
                     Log WARNING (MsgCacheSaveFailed (raise_of err))]))
  ∧ ∃ evs,
      (save_cache c ;; load_cache) w st
      = (Ret (match cache_write_damage w with
              | Untouched => loaded (cache_file st)
              | CutOff => ∅
              | Complete => c
              end),
         State (after_failed_write (cache_write_damage w) (cache_file st) c)
           (trace st ++ evs))
      ∧ (cache_write_damage w = CutOff →
         logged WARNING evs
         = [MsgCacheSaveFailed (raise_of err); MsgCacheLoadFailed ValueError]).
Proof.
  intros Hw. split.
  - by rewrite save_cache_trace, Hw.
  - unfold bind. rewrite save_cache_trace, Hw, load_cache_trace.
    cbn [cache_file trace]. rewrite <- app_assoc.
    destruct (cache_write_damage w); eexists; (split; [reflexivity|]); done.
Qed.

Lemma save_cache_failure_is_swallowed_witness :
  save_cache ∅ full_disk_world (initial sample_cache)
  = (Ret tt,
     State (after_failed_write (cache_write_damage full_disk_world)
              (cache_file (initial sample_cache)) ∅)
       (trace (initial sample_cache)
        ++ [Sys (WriteCache ∅);
            Log WARNING (MsgCacheSaveFailed (raise_of EIO))]))
  ∧ ∃ evs,
      (save_cache ∅ ;; load_cache) full_disk_world (initial sample_cache)
      = (Ret (match cache_write_damage full_disk_world with
              | Untouched => loaded (cache_file (initial sample_cache))
              | CutOff => ∅
              | Complete => ∅
              end),
         State (after_failed_write (cache_write_damage full_disk_world)
                  (cache_file (initial sample_cache)) ∅)
           (trace (initial sample_cache) ++ evs))
      ∧ (cache_write_damage full_disk_world = CutOff →
         logged WARNING evs
         = [MsgCacheSaveFailed (raise_of EIO); MsgCacheLoadFailed ValueError]).
Proof.
  apply (save_cache_failure_is_swallowed full_disk_world (initial sample_cache)).
  reflexivity.
Defined.

(** The two failures side by side: a cache file that cannot be opened for
    writing keeps [/dev/video2]; one that is cut off by a full disk has
    lost it. *)
Example failed_write_and_reload :
  ((save_cache ∅ ;; load_cache) readonly_world (initial sample_cache)).1
  = Ret {[ "/dev/video2" := "1-3:1.0" ]}
  ∧ ((save_cache ∅ ;; load_cache) full_disk_world (initial sample_cache)).1
    = Ret ∅.
Proof. split; reflexivity. Qed.

(** X4. Loading and saving back: the file afterwards holds the loaded
    dictionary.  A readable file is left with the same content; a missing
    or unreadable file becomes a file holding the empty dictionary. *)
Theorem load_then_save_normalises w st :
  cache_write_error w = None →
  ∃ evs,
    (m <- load_cache ;; save_cache m) w st
    = (Ret tt,
       State (match cache_file st with
              | Contents m => Contents m
              | _ => Contents ∅
              end)
         (trace st ++ evs)).
Proof.
  intros Hw. unfold bind. rewrite load_cache_trace, save_cache_trace, Hw.
  simpl. rewrite <- app_assoc.
  destruct (cache_file st); eexists; reflexivity.
Qed.

Lemma load_then_save_normalises_witness :
  ∃ evs,
    (m <- load_cache ;; save_cache m) sample_world (initial NoFile)
    = (Ret tt, State (Contents ∅) (trace (initial NoFile) ++ evs)).
Proof.
  apply (load_then_save_normalises sample_world (initial NoFile)).
  reflexivity.
Defined.

(** ** Bus identifiers: round trip, spelling, whitespace *)

Lemma is_bus_id_chars m :
  is_bus_id m → Forall (λ c, is_bus_id_char c = true) m.
Proof.
  intros (a & b & c & d & -> & [_ Ha] & [_ Hb] & [_ Hc] & [_ Hd]).
  assert (Hdig : ∀ l, Forall (λ a, Re.is_digit a = true) l →
                      Forall (λ c, is_bus_id_char c = true) l).
  { intros l Hl. eapply Forall_impl; [exact Hl|].
    unfold is_bus_id_char. simpl. by intros x ->. }
  repeat (rewrite Forall_app || rewrite Forall_cons).
  split_and!; try done; try by apply Hdig.
  eapply Forall_impl; [exact Hb|]. simpl. intros x Hx.
  unfold is_bus_id_char. unfold Re.is_digit_or_dot in Hx.
  apply orb_true_iff in Hx as [->| ->]; [done|]. by rewrite !orb_true_r.
Qed.

Lemma search_bus_id_self m : is_bus_id m → Re.search_bus_id m = Some m.
Proof.
  intros Hm. pose proof (search_bus_id_first m) as H.
  destruct (Re.search_bus_id m) as [m0|].
  - destruct H as (pre & post & Heq & _ & Hfirst).
    destruct (Hfirst [] m [] ) as [Hpre Hlen]; [by rewrite app_nil_r|done|].
    destruct pre; [|simpl in Hpre; lia]. specialize (Hlen eq_refl).
    simpl in Heq. apply (f_equal length) in Heq as Hl.
    rewrite length_app in Hl.
    destruct post; [|simpl in Hl; lia]. by rewrite app_nil_r in Heq; subst.
  - exfalso. apply (H [] m []); [by rewrite app_nil_r|done].
Qed.

(** X5. Extraction is a round trip on its own results: a text spelled as a
    bus identifier is extracted whole from itself, so extracting again
    from any extracted bus id gives it back unchanged. *)
Theorem bus_id_extracts_to_itself :
  (∀ m, is_bus_id m → Re.search_bus_id m = Some m)
  ∧ (∀ path m, Re.search_bus_id path = Some m → Re.search_bus_id m = Some m).
Proof.
  split; [apply search_bus_id_self|].
  intros path m H. apply search_bus_id_self.
  pose proof (search_bus_id_first path) as Hf. rewrite H in Hf.
  by destruct Hf as (_ & _ & _ & Hm & _).
Qed.

Lemma get_bus_id_value w st device b :
  (get_bus_id device w st).1 = Ret (Some b) →
  ∃ out m,
    udevadm_info w device = Ret (0%Z, out)
    ∧ Re.search_bus_id (Re.strip (String.list_ascii_of_string out)) = Some m
    ∧ b = String.string_of_list_ascii m.
Proof.
  destruct (get_bus_id_eq w st device) as (evs & -> & _). simpl.
  unfold queried.
  destruct (udevadm_info w device) as [[rc out]|e]; [|done].
  destruct (rc =? 0)%Z eqn:Erc; [|done].
  apply Z.eqb_eq in Erc as ->.
  destruct (Re.search_bus_id _) as [m|] eqn:Em; [|done].
  intros [= <-]. by exists out, m.
Qed.

Lemma get_bus_id_value_well_formed w st device b :
  (get_bus_id device w st).1 = Ret (Some b) → bus_id_string b.
Proof.
  intros H. apply get_bus_id_value in H as (out & m & Hu & Hm & ->).
  pose proof (search_bus_id_first
                (Re.strip (String.list_ascii_of_string out))) as Hf.
  rewrite Hm in Hf. destruct Hf as (_ & _ & _ & His & _).
  unfold bus_id_string. by rewrite String.list_ascii_of_string_of_list_ascii.
Qed.

(** X6. Whatever [get_bus_id] returns is a bus identifier: it comes from a
    [udevadm] run that exited with status 0, it is spelled digits, [-],
    digits or dots, [:], digits, [.], digits, and so it holds no character
    other than digits, [-], [.] and [:]. *)
Theorem get_bus_id_returns_bus_ids w st device b :
  (get_bus_id device w st).1 = Ret (Some b) →
  (∃ out, udevadm_info w device = Ret (0%Z, out))
  ∧ bus_id_string b
  ∧ Forall (λ c, is_bus_id_char c = true) (String.list_ascii_of_string b).
Proof.
  intros H. pose proof (get_bus_id_value_well_formed _ _ _ _ H) as His.
  apply get_bus_id_value in H as (out & m & Hu & Hm & ->).
  split_and!; [by exists out|done|by apply is_bus_id_chars].
Qed.

Lemma get_bus_id_returns_bus_ids_witness :
  (∃ out, udevadm_info sample_world "/dev/video0" = Ret (0%Z, out))
  ∧ bus_id_string "1-2:1.0"
  ∧ Forall (λ c, is_bus_id_char c = true)
      (String.list_ascii_of_string "1-2:1.0").
Proof.
  apply (get_bus_id_returns_bus_ids sample_world (initial NoFile) "/dev/video0").
  vm_compute. reflexivity.
Defined.

Lemma span_len_app_rejected cls s a t :
  cls a = false → Re.span_len cls (s ++ a :: t) = Re.span_len cls s.
Proof.
  intros Ha. induction s as [|x s IH]; simpl.
  - by rewrite Ha.
  - destruct (cls x); [by rewrite IH|done].
Qed.

Lemma match_here_empty its : its ≠ [] → Re.match_here its [] = None.
Proof. destruct its as [|[c|cls] r]; done. Qed.

Lemma match_here_rejected_head its a s :
  its ≠ [] → Forall (item_rejects a) its → Re.match_here its (a :: s) = None.
Proof.
  destruct its as [|[c|cls] r]; [done| |]; intros _ H;
    inversion H as [|? ? Hit _]; subst; simpl in *.
  - destruct (Ascii.eqb_spec a c); done.
  - by rewrite Hit.
Qed.

(** Text after a character that no item of the pattern takes cannot
    change a match before it. *)
Lemma match_here_app_rejected its s a t :
  Forall (item_rejects a) its →
  Re.match_here its (s ++ a :: t) = Re.match_here its s.
Proof.
  revert s. induction its as [|it its IH]; intros s H; [done|].
  inversion H as [|? ? Hit Hrest]; subst. destruct it as [c|cls]; simpl in *.
  - destruct s as [|x s]; simpl.
    + destruct (Ascii.eqb_spec a c); done.
    + destruct (Ascii.eqb x c); [|done]. by rewrite IH.
  - rewrite span_len_app_rejected by done.
    pose proof (ReFacts.span_len_le cls s) as Hle.
    induction (Re.span_len cls s) as [|k IHk]; [done|].
    simpl. rewrite IHk by lia.
    rewrite drop_app_le, take_app_le by lia.
    by rewrite IH.
Qed.

Lemma search_from_found its s p q :
  snd <$> Re.search_from its s p = snd <$> Re.search_from its s q.
Proof.
  revert p q. induction s as [|x s IH]; intros p q; simpl.
  - by destruct (Re.match_here its []).
  - destruct (Re.match_here its (x :: s)); [done|]. apply IH.
Qed.

Lemma found_skip_rejected its a s :
  its ≠ [] → Forall (item_rejects a) its → found its (a :: s) = found its s.
Proof.
  intros Hne H. unfold found, Re.search. simpl.
  rewrite match_here_rejected_head by done. apply search_from_found.
Qed.

Lemma found_app_rejected its s ws :
  its ≠ [] → Forall (λ a, Forall (item_rejects a) its) ws →
  found its (s ++ ws) = found its s.
Proof.
  intros Hne Hws. unfold found, Re.search. generalize 0.
  induction s as [|x s IH]; intros p; simpl.
  - rewrite match_here_empty by done. simpl.
    revert p. induction Hws as [|a ws Ha _ IHws]; intros p; simpl.
    + by rewrite match_here_empty.
    + rewrite match_here_rejected_head by done. apply IHws.
  - assert (Hm : Re.match_here its (x :: s ++ ws) = Re.match_here its (x :: s)).
    { destruct Hws as [|a ws Ha _]; [by rewrite app_nil_r|].
      by apply (match_here_app_rejected its (x :: s)). }
    rewrite Hm. destruct (Re.match_here its (x :: s)); [done|]. apply IH.
Qed.

Lemma lstrip_split s :
  ∃ ws, s = ws ++ Re.lstrip s ∧ Forall (λ a, Re.is_space a = true) ws.
Proof.
  induction s as [|a s (ws & Hs & Hws)]; simpl.
  - by exists [].
  - destruct (Re.is_space a) eqn:Ha.
    + exists (a :: ws). split; [by rewrite <- app_comm_cons, <- Hs|by constructor].
    + by exists [].
Qed.

Lemma strip_split s :
  ∃ ws1 ws2,
    s = ws1 ++ Re.strip s ++ ws2
    ∧ Forall (λ a, Re.is_space a = true) ws1
    ∧ Forall (λ a, Re.is_space a = true) ws2.
Proof.
  destruct (lstrip_split s) as (ws1 & Hs & H1).
  destruct (lstrip_split (rev (Re.lstrip s))) as (ws2 & Hr & H2).
  exists ws1, (rev ws2). split_and!; [|done|].
  - unfold Re.strip. rewrite <- rev_app_distr, <- Hr, rev_involutive. done.
  - apply Forall_forall. intros x Hx.
    apply list_elem_of_In, in_rev, list_elem_of_In in Hx.
    by apply (proj1 (Forall_forall _ _) H2).
Qed.

Lemma space_rejected_by_bus_id_pattern a :
  Re.is_space a = true → Forall (item_rejects a) Re.bus_id_pattern.
Proof.
  intros Ha. unfold Re.bus_id_pattern.
  destruct a as [[] [] [] [] [] [] [] []]; vm_compute in Ha; try discriminate;
    repeat constructor; done.
Qed.

(** X7. Whitespace around the answer of [udevadm] does not matter to the
    extraction: the bus id found in the stripped text is the one found in
    the text as it came, so [get_bus_id] gives the same result with or
    without the trailing newline. *)
Theorem strip_does_not_change_bus_id (s : list ascii) :
  Re.search_bus_id (Re.strip s) = Re.search_bus_id s.
Proof.
  destruct (strip_split s) as (ws1 & ws2 & Hs & H1 & H2).
  assert (Hfound : found Re.bus_id_pattern s
                   = found Re.bus_id_pattern (Re.strip s)).
  { rewrite Hs at 1. clear Hs.
    induction H1 as [|a ws1 Ha _ IH]; simpl.
    - apply found_app_rejected; [done|].
      eapply Forall_impl; [exact H2|]. apply space_rejected_by_bus_id_pattern.
    - rewrite found_skip_rejected; [done|done|].
      by apply space_rejected_by_bus_id_pattern. }
  unfold found in Hfound. unfold Re.search_bus_id.
  destruct (Re.search Re.bus_id_pattern s) as [[i ps]|];
    destruct (Re.search Re.bus_id_pattern (Re.strip s)) as [[j qs]|];
    simpl in *; congruence.
Qed.

(** ** The configuration reader: what comes out, and when nothing does *)

Lemma extract_path_is_path entry d :
  extract_path entry = Some d → path_text (String.list_ascii_of_string d).
Proof.
  unfold extract_path. destruct (startswith entry.1 "camera"); [|done].
  pose proof (search_device_first_token (String.list_ascii_of_string entry.2)) as H.
  destruct (Re.search_device _) as [p|]; [|done]. simpl. intros [= <-].
  rewrite String.list_ascii_of_string_of_list_ascii.
  by destruct H as (_ & _ & _ & Hp & _).
Qed.

Lemma fetched_None items k e : (k, Raise e) ∈ items → fetched items = None.
Proof.
  induction items as [|[k' [v|e']] items IH]; intros Hin.
  - by apply elem_of_nil in Hin.
  - apply elem_of_cons in Hin as [[=]|Hin]. simpl. by rewrite IH.
  - done.
Qed.

(** X8. Every device path that [parse_camera_devices] returns is a usable
    token: not empty, and without whitespace or [!].  The call itself
    never raises and never writes the cache file. *)
Theorem parsed_devices_are_path_tokens w st ini_path :
  ∃ devices evs,
    parse_camera_devices ini_path w st
    = (Ret devices, State (cache_file st) (trace st ++ evs))
    ∧ Forall (λ d, path_text (String.list_ascii_of_string d)) devices
    ∧ saves evs = [].
Proof.
  destruct (parse_camera_devices_eq w st ini_path) as (evs & H & Hs & _).
  eexists _, evs. split_and!; [exact H| |done].
  unfold camera_devices.
  destruct (ini_file w ini_path) as [cfg|]; [|constructor].
  destruct (config_section "plugin" cfg) as [items|]; [|constructor].
  destruct (fetched items) as [entries|]; [|constructor].
  apply Forall_forall. intros d Hd.
  apply list_elem_of_omap in Hd as (entry & _ & He).
  by eapply extract_path_is_path.
Qed.

(** X9. One value that cannot be fetched voids the whole list: if any
    entry of the plugin section raises when its value is read, camera
    entry or not, [parse_camera_devices] returns no device at all, logs
    one error, and never logs the count of devices found. *)
Theorem failing_value_voids_devices w st ini_path cfg items k e :
  ini_file w ini_path = Ret cfg →
  config_section "plugin" cfg = Some items →
  (k, Raise e) ∈ items →
  ∃ e',
    parse_camera_devices ini_path w st
    = (Ret [],
       State (cache_file st)
         (trace st ++ [Sys (ReadIni ini_path);
                       Log ERROR (MsgParseError ini_path e')])).
Proof.
  intros Hini Hsec Hin.
  pose proof (for_each_parse_entry items [] w
                (State (cache_file st) (trace st ++ [Sys (ReadIni ini_path)])))
    as H.
  rewrite (fetched_None _ _ _ Hin) in H. destruct H as [e' H].
  exists e'. unfold parse_camera_devices. unfold_os. simpl.
  rewrite Hini. simpl. rewrite Hsec, H. simpl. by rewrite <- app_assoc.
Qed.

Lemma failing_value_voids_devices_witness :
  ∃ e',
    parse_camera_devices default_ini_path broken_world (initial NoFile)
    = (Ret [],
       State (cache_file (initial NoFile))
         (trace (initial NoFile)
          ++ [Sys (ReadIni default_ini_path);
              Log ERROR (MsgParseError default_ini_path e')])).
Proof.
  apply (failing_value_voids_devices broken_world (initial NoFile)
           default_ini_path broken_config
           [("camera1", Ret "v4l2src device=/dev/video0 ! videoconvert ! appsink");
            ("note", Raise ValueError)]
           "note" ValueError).
  - reflexivity.
  - reflexivity.
  - apply list_elem_of_In. right. left. reflexivity.
Defined.

(** ** The camera map: keys, order and values *)

Lemma dict_get_is_Some k (d : dict) : is_Some (dict_get k d) ↔ k ∈ d.*1.
Proof.
  induction d as [|[k' v] d IH]; csimpl.
  - split; [by intros [? ?]|by intros ?%elem_of_nil].
  - rewrite elem_of_cons. destruct (decide (k = k')) as [->|Hne].
    + split; [by left|eauto].
    + rewrite IH. split; [by right|]. by intros [?|?].
Qed.

Lemma dict_set_keys k v (d : dict) :
  (dict_set k v d).*1 = if decide (k ∈ d.*1) then d.*1 else d.*1 ++ [k].
Proof.
  induction d as [|[k' v'] d IH]; csimpl; [done|].
  - destruct (decide (k = k')) as [->|Hne]; csimpl.
    + by rewrite decide_True by apply list_elem_of_here.
    + rewrite IH. destruct (decide (k ∈ d.*1)) as [Hin|Hin].
      * by rewrite decide_True by (by apply list_elem_of_further).
      * rewrite decide_False; [done|]. by intros [?|?]%elem_of_cons.
Qed.

Lemma dict_set_NoDup k v (d : dict) : NoDup d.*1 → NoDup (dict_set k v d).*1.
Proof.
  intros Hd. rewrite dict_set_keys. case_decide; [done|].
  apply NoDup_app. split_and!; [done| |apply NoDup_singleton].
  intros x Hx ->%list_elem_of_singleton. done.
Qed.

Lemma turn_camera_map_eq w l d :
  camera_map (resolve_outcome w l d) =
  match expected w (cache l) d with
  | Some b => dict_set d b (camera_map l)
  | None => camera_map l
  end.
Proof.
  unfold resolve_outcome, expected, live_bus_id.
  destruct (node_present w d).
  - destruct (detected w d) as [b|]; [|done]. by case_decide.
  - by destruct (cache l !! d).
Qed.

Lemma foldl_pointwise {A B} (f g : A → B → A) l a :
  (∀ a b, f a b = g a b) → foldl f a l = foldl g a l.
Proof.
  intros H. revert a. induction l as [|b l IH]; intros a; simpl; [done|].
  by rewrite H, IH.
Qed.

(** The camera map only depends on what each turn expects. *)
Lemma loop_camera_map_eq w devices l :
  camera_map (foldl (resolved w) l devices) =
  foldl (λ cm d, match expected w (cache l) d with
                 | Some b => dict_set d b cm
                 | None => cm
                 end) (camera_map l) devices.
Proof.
  revert l. induction devices as [|d devices IH]; intros l; simpl; [done|].
  rewrite IH, resolved_eq, turn_camera_map_eq.
  apply foldl_pointwise. intros cm d'. by rewrite turn_expected.
Qed.

Lemma loop_keys_NoDup w devices l :
  NoDup (camera_map l).*1 →
  NoDup (camera_map (foldl (resolved w) l devices)).*1.
Proof.
  revert l. induction devices as [|d devices IH]; intros l Hl; simpl; [done|].
  apply IH. rewrite resolved_eq, turn_camera_map_eq.
  destruct (expected w (cache l) d); [by apply dict_set_NoDup|done].
Qed.

Lemma loop_keys_order w devices l :
  NoDup devices →
  (∀ d, d ∈ devices → d ∉ (camera_map l).*1) →
  (camera_map (foldl (resolved w) l devices)).*1 =
  (camera_map l).*1
  ++ filter (λ d, is_Some (expected w (cache l) d)) devices.
Proof.
  revert l. induction devices as [|d devices IH]; intros l Hnd Hfresh; simpl.
  - by rewrite app_nil_r.
  - apply NoDup_cons in Hnd as [Hd Hnd].
    assert (Hkeys : (camera_map (resolved w l d)).*1 =
                    (camera_map l).*1
                    ++ filter (λ d, is_Some (expected w (cache l) d)) [d]).
    { rewrite resolved_eq, turn_camera_map_eq.
      destruct (expected w (cache l) d) as [b|] eqn:E.
      - rewrite dict_set_keys, decide_False by apply Hfresh, list_elem_of_here.
        rewrite filter_cons_True; [done|]. rewrite E. eauto.
      - rewrite filter_cons_False; [by rewrite app_nil_r|].
        rewrite E. by intros [? ?]. }
    rewrite IH; [|done|].
    + rewrite Hkeys, <- app_assoc. f_equal.
      change (d :: devices) with ([d] ++ devices). rewrite filter_app.
      f_equal. apply list_filter_iff. intros x.
      by rewrite resolved_eq, turn_expected.
    + intros d' Hd'. rewrite Hkeys. apply not_elem_of_app. split.
      * by apply Hfresh, list_elem_of_further.
      * intros Hin. apply list_elem_of_filter in Hin as [_ Hin].
        apply list_elem_of_singleton in Hin as ->. done.
Qed.

(** X10. The camera map has each path once, holds configured paths only,
    and lists them in the order of the configuration: with no path
    configured twice, its keys are the configured paths that resolve (live
    bus id, or cached one when the node is missing), in that order. *)
Theorem camera_map_keys_follow_configuration w st :
  ∃ cm f evs,
    build_camera_map w st = (Ret cm, State f (trace st ++ evs))
    ∧ NoDup cm.*1
    ∧ (∀ d, d ∈ cm.*1 → d ∈ configured w)
    ∧ (NoDup (configured w) →
       cm.*1 = filter (λ d, is_Some (expected w (loaded (cache_file st)) d))
                 (configured w)).
Proof.
  destruct (build_camera_map_result w st) as (evs & H & _).
  eexists _, _, evs. split_and!; [exact H| | |].
  - unfold final_locals. apply loop_keys_NoDup. simpl. constructor.
  - intros d Hd. apply dict_get_is_Some in Hd.
    rewrite final_camera_map in Hd. case_decide; [done|]. by destruct Hd.
  - intros Hnd. unfold final_locals. rewrite loop_keys_order; [done|done|].
    intros d _. simpl. apply not_elem_of_nil.
Qed.

(** ** The cache across a run, and across two runs *)

Lemma live_bus_id_well_formed w d b :
  live_bus_id w d = Some b → bus_id_string b.
Proof.
  unfold live_bus_id. destruct (node_present w d); [|done].
  destruct (get_bus_id_runs w (initial NoFile) d) as (evs & H & _ & _ & ->).
  intros Hq. unfold runs in H.
  apply (get_bus_id_value_well_formed w (initial NoFile) d b).
  by rewrite H, Hq.
Qed.

(** X11. What a run does to the cache, key by key: a configured path with
    a live bus id gets that id, every other key keeps the value that was
    loaded; paths that are not configured are neither added to the camera
    map nor changed in the cache.  Every value the run adds, to the cache
    or to the camera map, is spelled as a bus identifier. *)
Theorem cache_changes_only_for_detected_devices w st :
  ∃ cm f evs,
    build_camera_map w st = (Ret cm, State f (trace st ++ evs))
    ∧ (∀ k, cache (final_locals w (cache_file st)) !! k =
            if decide (k ∈ configured w)
            then match live_bus_id w k with
                 | Some b => Some b
                 | None => loaded (cache_file st) !! k
                 end
            else loaded (cache_file st) !! k)
    ∧ (∀ k, k ∉ configured w → dict_get k cm = None)
    ∧ (∀ k b, cache (final_locals w (cache_file st)) !! k = Some b →
              loaded (cache_file st) !! k = Some b ∨ bus_id_string b)
    ∧ (∀ k b, dict_get k cm = Some b →
              loaded (cache_file st) !! k = Some b ∨ bus_id_string b).
Proof.
  destruct (build_camera_map_result w st) as (evs & H & _).
  eexists _, _, evs. split_and!; [exact H| | | |].
  - apply final_cache.
  - intros k Hk. by rewrite final_camera_map, decide_False.
  - intros k b. rewrite final_cache. case_decide; [|by left].
    destruct (live_bus_id w k) as [b'|] eqn:E; [|by left].
    intros [= ->]. right. by eapply live_bus_id_well_formed.
  - intros k b. rewrite final_camera_map. case_decide; [|done].
    unfold expected.
    destruct (live_bus_id w k) as [b'|] eqn:E.
    + intros [= ->]. right. by eapply live_bus_id_well_formed.
    + destruct (node_present w k); [done|]. by left.
Qed.

Lemma second_run_settled w f :
  cache_write_error w = None →
  ∀ d, d ∈ configured w →
       live_bus_id w d = None
       ∨ live_bus_id w d = loaded (final_file w f) !! d.
Proof.
  intros Hw d Hd. destruct (live_bus_id w d) as [b|] eqn:E; [right|by left].
  unfold final_file. rewrite Hw.
  destruct (cache_updated (final_locals w f)) eqn:Hu; simpl.
  - by rewrite final_cache, decide_True, E.
  - destruct (decide (loaded f !! d = Some b)) as [->|Hne]; [done|].
    unfold final_locals in Hu.
    by rewrite (loop_refresh w (configured w) _ d b Hd E) in Hu.
Qed.

Lemma second_run_expected w f d :
  cache_write_error w = None →
  expected w (loaded (final_file w f)) d = expected w (loaded f) d.
Proof.
  intros Hw. unfold expected.
  destruct (live_bus_id w d) as [b|] eqn:E; [done|].
  destruct (node_present w d); [done|].
  unfold final_file. rewrite Hw.
  destruct (cache_updated (final_locals w f)); [|done]. simpl.
  rewrite final_cache, E. by case_decide.
Qed.

(** X12. A second [build_camera_map] after one whose cache write went
    through finds everything settled: it returns the same camera map,
    does not call [save_cache], and leaves the cache file as the first
    run left it. *)
Theorem second_build_changes_nothing w st :
  cache_write_error w = None →
  ∃ cm f e1 e2,
    build_camera_map w st = (Ret cm, State f (trace st ++ e1))
    ∧ build_camera_map w (State f (trace st ++ e1))
      = (Ret cm, State f ((trace st ++ e1) ++ e2))
    ∧ saves e2 = [].
Proof.
  intros Hw.
  destruct (build_camera_map_result w st) as (e1 & H1 & _).
  destruct (build_camera_map_result w
              (State (final_file w (cache_file st)) (trace st ++ e1)))
    as (e2 & H2 & Hs2 & _). simpl in H2, Hs2.
  destruct (loop_unchanged w (configured w)
              (Locals [] (loaded (final_file w (cache_file st))) false)
              (second_run_settled w (cache_file st) Hw)) as [_ Hu].
  fold (final_locals w (final_file w (cache_file st))) in Hu. simpl in Hu.
  assert (Hcm : camera_map (final_locals w (final_file w (cache_file st)))
                = camera_map (final_locals w (cache_file st))).
  { unfold final_locals. rewrite !loop_camera_map_eq. simpl.
    fold (final_locals w (cache_file st)).
    apply foldl_pointwise. intros cm d. by rewrite second_run_expected. }
  eexists _, _, e1, e2. split_and!; [exact H1| |by rewrite Hs2, Hu].
  assert (Hff : final_file w (final_file w (cache_file st))
                = final_file w (cache_file st)).
  { unfold final_file at 1. by rewrite Hu. }
  by rewrite H2, Hcm, Hff.
Qed.

Lemma second_build_changes_nothing_witness :
  ∃ cm f e1 e2,
    build_camera_map sample_world (initial sample_cache)
    = (Ret cm, State f (trace (initial sample_cache) ++ e1))
    ∧ build_camera_map sample_world
        (State f (trace (initial sample_cache) ++ e1))
      = (Ret cm, State f ((trace (initial sample_cache) ++ e1) ++ e2))
    ∧ saves e2 = [].
Proof.
  apply (second_build_changes_nothing sample_world (initial sample_cache)).
  reflexivity.
Defined.

Lemma build_camera_map_save_tail w st :
  cache_updated (final_locals w (cache_file st)) = true →
  ∃ pre,
    build_camera_map w st
    = (Ret (camera_map (final_locals w (cache_file st))),
       State (final_file w (cache_file st))
         (trace st ++ pre
          ++ Sys (WriteCache (cache (final_locals w (cache_file st))))
             :: match cache_write_error w with
                | None => []
                | Some err => [Log WARNING (MsgCacheSaveFailed (raise_of err))]
                end))
    ∧ saves pre = [].
Proof.
  intros Hu.
  destruct (parse_camera_devices_runs w st) as (e1 & H1 & Hs1 & _).
  destruct (load_cache_runs w (State (cache_file st) (trace st ++ e1)))
    as (e2 & H2 & Hs2 & _). simpl in H2.
  destruct (for_each_resolve_runs w
              (State (cache_file st) ((trace st ++ e1) ++ e2))
              (configured w) (Locals [] (loaded (cache_file st)) false))
    as (e3 & H3 & Hs3 & _). simpl in H3.
  fold (final_locals w (cache_file st)) in H3.
  unfold runs in H1, H2, H3. simpl in H2, H3.
  exists (e1 ++ e2 ++ e3). split; [|by rewrite !saves_app, Hs1, Hs2, Hs3].
  unfold build_camera_map, bind. rewrite H1, H2, H3, Hu, save_cache_trace.
  unfold final_file. rewrite Hu. unfold ret.
  destruct (cache_write_error w); simpl; by rewrite <- !app_assoc.
Qed.

(** X13. A cache file that cannot be written does not stop
    [build_camera_map]: the freshly detected device is still in the
    returned camera map and the last thing logged is the warning of
    [save_cache].  The file is what the failed write left: as it was if
    it could not be opened, emptied or cut off if the write failed after
    that, so that the cached bus ids of missing devices are lost to the
    next run.  The next run detects the device again; unless the first
    write was complete after all, it makes one more attempt to write and
    leaves the file as it found it, and it builds the same map and writes
    the same dictionary if the file was left as it was. *)
Theorem failed_cache_write_is_not_fatal w st d b err :
  d ∈ configured w →
  live_bus_id w d = Some b →
  loaded (cache_file st) !! d ≠ Some b →
  cache_write_error w = Some err →
  ∃ cm f e1 cm2 f2 e2,
    build_camera_map w st = (Ret cm, State f (trace st ++ e1))
    ∧ f = after_failed_write (cache_write_damage w) (cache_file st)
            (cache (final_locals w (cache_file st)))
    ∧ dict_get d cm = Some b
    ∧ last e1 = Some (Log WARNING (MsgCacheSaveFailed (raise_of err)))
    ∧ length (saves e1) = 1
    ∧ build_camera_map w (State f (trace st ++ e1))
      = (Ret cm2, State f2 ((trace st ++ e1) ++ e2))
    ∧ dict_get d cm2 = Some b
    ∧ (cache_write_damage w ≠ Complete → f2 = f ∧ length (saves e2) = 1)
    ∧ (cache_write_damage w = Untouched → cm2 = cm ∧ saves e2 = saves e1).
Proof.
  intros Hd Hlive Hc Hw.
  assert (Hu : cache_updated (final_locals w (cache_file st)) = true).
  { unfold final_locals. by eapply loop_refresh. }
  set (f := after_failed_write (cache_write_damage w) (cache_file st)
              (cache (final_locals w (cache_file st)))).
  assert (Hf : final_file w (cache_file st) = f).
  { unfold final_file. by rewrite Hu, Hw. }
  destruct (build_camera_map_save_tail w st Hu) as (p1 & H1 & Hs1).
  rewrite Hw, Hf in H1.
  destruct (build_camera_map_runs w
              (State f
                 (trace st ++ p1
                  ++ [Sys (WriteCache (cache (final_locals w (cache_file st))));
                      Log WARNING (MsgCacheSaveFailed (raise_of err))])))
    as (e2 & H2 & Hs2 & _). unfold runs in H2. cbn [cache_file trace] in H2, Hs2.
  eexists _, f, _, _, _, e2.
  split_and!; [exact H1|done| | | |exact H2| | |].
  - rewrite final_camera_map, decide_True by done.
    unfold expected. by rewrite Hlive.
  - change [?a; ?b] with ([a] ++ [b]). by rewrite !app_assoc, last_snoc.
  - rewrite saves_app, Hs1. done.
  - rewrite final_camera_map, decide_True by done.
    unfold expected. by rewrite Hlive.
  - intros Hdam.
    assert (Hc2 : loaded f !! d ≠ Some b).
    { unfold f. by destruct (cache_write_damage w). }
    assert (Hu2 : cache_updated (final_locals w f) = true).
    { unfold final_locals. by eapply loop_refresh. }
    split.
    + unfold final_file. rewrite Hu2, Hw. unfold f.
      by destruct (cache_write_damage w).
    + by rewrite Hs2, Hu2.
  - intros Hdam. unfold f in *. rewrite Hdam in *. simpl in *.
    split; [done|]. rewrite Hs2, Hu, saves_app, Hs1. done.
Qed.

Lemma failed_cache_write_is_not_fatal_witness :
  ∃ cm f e1 cm2 f2 e2,
    build_camera_map full_disk_world (initial sample_cache)
    = (Ret cm, State f (trace (initial sample_cache) ++ e1))
    ∧ f = after_failed_write (cache_write_damage full_disk_world)
            (cache_file (initial sample_cache))
            (cache (final_locals full_disk_world
                      (cache_file (initial sample_cache))))
    ∧ dict_get "/dev/video0" cm = Some "1-2:1.0"
    ∧ last e1 = Some (Log WARNING (MsgCacheSaveFailed (raise_of EIO)))
    ∧ length (saves e1) = 1
    ∧ build_camera_map full_disk_world
        (State f (trace (initial sample_cache) ++ e1))
      = (Ret cm2, State f2 ((trace (initial sample_cache) ++ e1) ++ e2))
    ∧ dict_get "/dev/video0" cm2 = Some "1-2:1.0"
    ∧ (cache_write_damage full_disk_world ≠ Complete →
       f2 = f ∧ length (saves e2) = 1)
    ∧ (cache_write_damage full_disk_world = Untouched →
       cm2 = cm ∧ saves e2 = saves e1).
Proof.
  apply (failed_cache_write_is_not_fatal full_disk_world (initial sample_cache)).
  - apply list_elem_of_In. vm_compute. left. reflexivity.
  - vm_compute. reflexivity.
  - vm_compute. discriminate.
  - reflexivity.
Defined.

(** The write that fails half way costs the next run the cached bus id of
    a camera that is unplugged: [/dev/video2] was in the first map from
    the cache and is not in the second. *)
Example interrupted_write_loses_cached_bus_ids :
  ∃ st1 cm2 st2,
    build_camera_map full_disk_world (initial sample_cache)
    = (Ret [("/dev/video0", "1-2:1.0"); ("/dev/video2", "1-3:1.0")], st1)
    ∧ cache_file st1 = Unreadable ValueError
    ∧ build_camera_map full_disk_world st1 = (Ret cm2, st2)
    ∧ cm2 = [("/dev/video0", "1-2:1.0")].
Proof. eexists _, _, _. split_and!; vm_compute; reflexivity. Qed.

(** ** The poll loop: who is rebound, and how long a cycle takes *)

Lemma shell_commands_app t1 t2 :
  shell_commands (t1 ++ t2) = shell_commands t1 ++ shell_commands t2.
Proof.
  induction t1 as [|[l m|[]] t1 IH]; simpl; rewrite ?IH; done.
Qed.

Lemma slept_app t1 t2 : slept (t1 ++ t2) = slept t1 + slept t2.
Proof.
  induction t1 as [|[l m|[]] t1 IH]; simpl; rewrite ?IH; lia.
Qed.

Lemma logged_app lv t1 t2 : logged lv (t1 ++ t2) = logged lv t1 ++ logged lv t2.
Proof.
  induction t1 as [|[l m|c] t1 IH]; simpl; [done| |done].
  destruct lv, l; simpl; by rewrite IH.
Qed.

(** The existence check only probes: no command, no sleep, no log line,
    no cache write. *)
Lemma device_exists_probes_only w st p :
  ∃ evs,
    runs (device_exists p) w st (node_present w p) (cache_file st) evs
    ∧ shell_commands evs = [] ∧ slept evs = 0 ∧ saves evs = []
    ∧ polls evs = 0
    ∧ ∀ lv, logged lv evs = [].
Proof.
  unfold node_present.
  destruct (device_exists_eq w (initial NoFile) p) as (evs0 & -> & _).
  unfold runs, device_exists. unfold_os. simpl.
  destruct (path_exists w p); simpl;
    [destruct (path_islink w p); simpl;
     [destruct (path_exists w (path_realpath w p)); simpl|];
     try (destruct (path_stat w p) as [[]|]; simpl)|];
    eexists; (split; [frame_trace|]); split_and!; try done; by intros [].
Qed.

Lemma missing_single w (entry : string * string) :
  missing w [entry] = if node_present w entry.1 then [] else [entry].
Proof.
  unfold missing. destruct (node_present w entry.1) eqn:E.
  - rewrite (filter_cons_False _ entry []); [done|]. by rewrite E.
  - by rewrite (filter_cons_True _ entry []).
Qed.

Lemma missing_cons w entry cm :
  missing w (entry :: cm) = missing w [entry] ++ missing w cm.
Proof.
  unfold missing. change (entry :: cm) with ([entry] ++ cm).
  apply (filter_app _ [entry] cm).
Qed.


(** One check of one camera: the rebind is run exactly when the node is
    missing at the moment of the check. *)
Lemma check_camera_trace w st entry :
  has_nul entry.2 = false →
  shell_starts w →
  ∃ evs rebound,
    runs (check_camera entry tt) w st tt (cache_file st) evs
    ∧ rebound = (if node_present (ahead (length (trace st)) w) entry.1
                 then [] else [entry])
    ∧ shell_commands evs = flat_map rebind_commands rebound
    ∧ slept evs = 5 * length rebound
    ∧ logged WARNING evs = missing_warning <$> rebound
    ∧ logged ERROR evs = []
    ∧ saves evs = []
    ∧ polls evs = 0.
Proof.
  intros Hnul Hsh.
  destruct (device_exists_probes_only (ahead (length (trace st)) w) st entry.1)
    as (e1 & H1 & Hc1 & Hz1 & Hs1 & Hp1 & Hl1).
  unfold runs in H1. unfold check_camera, runs, bind, now. rewrite H1.
  destruct (node_present (ahead (length (trace st)) w) entry.1) eqn:E; simpl.
  - exists e1, []. rewrite !Hl1. done.
  - pose proof (rebind_device_runs w
                  (State (cache_file st)
                     ((trace st ++ e1) ++ [Log WARNING (MsgMissing entry.1 entry.2)]))
                  entry.2 Hnul Hsh) as H2.
    unfold runs in H2. cbn [cache_file trace] in H2.
    unfold logging, emit. cbn [cache_file trace]. rewrite H2.
    unfold ret. eexists _, [entry]. split; [frame_trace|].
    rewrite shell_commands_app, slept_app, !logged_app, saves_app, polls_app.
    rewrite Hc1, Hz1, Hs1, Hp1, !Hl1. done.
Qed.

Lemma cycle_rebinds_nil w : cycle_rebinds w [] [].
Proof.
  split_and!; [constructor| |]; intros entry He; by apply elem_of_nil in He.
Qed.

Lemma cycle_rebinds_cons w entry cm (one rest : dict) k :
  one = (if node_present (ahead k w) entry.1 then [] else [entry]) →
  cycle_rebinds w cm rest →
  cycle_rebinds w (entry :: cm) (one ++ rest).
Proof.
  intros -> (Hsub & Honly & Hall).
  destruct (node_present (ahead k w) entry.1) eqn:E; simpl.
  - split_and!.
    + by apply sublist_cons.
    + done.
    + intros e He Hmiss. apply elem_of_cons in He as [->|He].
      * by rewrite Hmiss in E.
      * by apply Hall.
  - split_and!.
    + by apply sublist_skip.
    + intros e He. apply elem_of_cons in He as [->|He]; [by exists k|].
      by apply Honly.
    + intros e He Hmiss. apply elem_of_cons in He as [->|He].
      * apply list_elem_of_here.
      * by apply list_elem_of_further, Hall.
Qed.

(** One poll cycle over the camera map. *)
Lemma poll_cycle_trace w st (cm : dict) :
  (∀ entry, entry ∈ cm → has_nul entry.2 = false) →
  shell_starts w →
  ∃ evs rebound,
    runs (for_each cm check_camera tt) w st tt (cache_file st) evs
    ∧ cycle_rebinds w cm rebound
    ∧ (later w = None → rebound = missing w cm)
    ∧ shell_commands evs = flat_map rebind_commands rebound
    ∧ slept evs = 5 * length rebound
    ∧ logged WARNING evs = missing_warning <$> rebound
    ∧ logged ERROR evs = []
    ∧ saves evs = []
    ∧ polls evs = 0.
Proof.
  intros Hnul Hsh. revert st.
  induction cm as [|entry cm IH]; intros st.
  - exists [], []. split_and!; try done; [apply runs_ret|apply cycle_rebinds_nil].
  - destruct (check_camera_trace w st entry)
      as (e1 & r1 & H1 & Hr1 & Hc1 & Hz1 & Hw1 & He1 & Hs1 & Hp1);
      [apply Hnul, list_elem_of_here|done|].
    destruct IH with (st := State (cache_file st) (trace st ++ e1))
      as (e2 & r2 & H2 & Hr2 & Hst2 & Hc2 & Hz2 & Hw2 & He2 & Hs2 & Hp2).
    { intros e He. by apply Hnul, list_elem_of_further. }
    exists (e1 ++ e2), (r1 ++ r2). split_and!.
    + simpl. eapply runs_bind; [exact H1|]. destruct (tt). exact H2.
    + by eapply cycle_rebinds_cons.
    + intros Hw. rewrite missing_cons, missing_single, Hst2 by done.
      rewrite Hr1. by rewrite ahead_steady.
    + by rewrite shell_commands_app, Hc1, Hc2, flat_map_app.
    + rewrite slept_app, Hz1, Hz2, length_app. lia.
    + by rewrite logged_app, Hw1, Hw2, fmap_app.
    + by rewrite logged_app, He1, He2.
    + by rewrite saves_app, Hs1, Hs2.
    + by rewrite polls_app, Hp1, Hp2.
Qed.

(** The loop never leaves by itself: while the rebind commands can be
    started it is still polling after any number of cycles, whatever
    happened to the devices and to the commands in between. *)
Lemma poll_loop_trace w st cycles (cm : dict) :
  (∀ entry, entry ∈ cm → has_nul entry.2 = false) →
  shell_starts w →
  ∃ evs (rebound : list dict),
    runs (poll_loop cycles cm) w st Polling (cache_file st) evs
    ∧ length rebound = cycles
    ∧ Forall (cycle_rebinds w cm) rebound
    ∧ (later w = None → rebound = replicate cycles (missing w cm))
    ∧ shell_commands evs = flat_map rebind_commands (concat rebound)
    ∧ slept evs = 5 * cycles + 5 * length (concat rebound)
    ∧ logged WARNING evs = missing_warning <$> concat rebound
    ∧ logged ERROR evs = []
    ∧ saves evs = []
    ∧ polls evs = cycles.
Proof.
  intros Hnul Hsh. revert st. induction cycles as [|n IH]; intros st.
  - exists [], []. split_and!; try done. apply runs_ret.
  - destruct (poll_cycle_trace w st cm Hnul Hsh)
      as (e1 & r1 & H1 & Hr1 & Hst1 & Hc1 & Hz1 & Hw1 & He1 & Hs1 & Hp1).
    destruct (IH (State (cache_file st) ((trace st ++ e1) ++ [Sys (SleepFor 5)])))
      as (e2 & r2 & H2 & Hlen & Hr2 & Hst2 & Hc2 & Hz2 & Hw2 & He2 & Hs2 & Hp2).
    exists (e1 ++ [Sys (SleepFor 5)] ++ e2), (r1 :: r2). split_and!.
    + unfold runs in *. cbn [poll_loop]. unfold bind. rewrite H1.
      unfold time_sleep, emit. simpl. rewrite H2. simpl.
      by rewrite <- !app_assoc.
    + simpl. by rewrite Hlen.
    + by constructor.
    + intros Hw. simpl. by rewrite Hst1, Hst2.
    + rewrite !shell_commands_app, Hc1, Hc2. simpl. by rewrite flat_map_app.
    + rewrite !slept_app, Hz1, Hz2. simpl. rewrite length_app. lia.
    + rewrite !logged_app, Hw1, Hw2. simpl. by rewrite fmap_app.
    + rewrite !logged_app, He1, He2. done.
    + rewrite !saves_app, Hs1, Hs2. done.
    + rewrite !polls_app, Hp1, Hp2. simpl. lia.
Qed.



Lemma length_concat_replicate {A} n (l : list A) :
  length (concat (replicate n l)) = n * length l.
Proof.
  induction n as [|n IH]; [done|]. simpl. rewrite length_app, IH. lia.
Qed.

Lemma cycle_rebinds_bound w cm (rebound : list dict) :
  Forall (cycle_rebinds w cm) rebound →
  length (concat rebound) ≤ length rebound * length cm.
Proof.
  induction 1 as [|r rs (Hsub & _) _ IH]; [done|].
  simpl. rewrite length_app. apply sublist_length in Hsub. lia.
Qed.




(** X15. The time slept in the poll loop is five seconds for every cycle
    plus five (two after the unbind, three after the bind) for every
    rebind, and every rebind is announced by one warning and runs two
    commands.  The loop thus sleeps at least five seconds a cycle and at
    most five more for each entry of the camera map; on a machine that
    does not change, [cycles] cycles sleep [cycles * (5 + 5 * missing)]
    seconds in all. *)
Theorem poll_cycle_duration w st cycles (cm : dict) :
  (∀ entry, entry ∈ cm → has_nul entry.2 = false) →
  shell_starts w →
  ∃ evs,
    poll_loop cycles cm w st
    = (Ret Polling, State (cache_file st) (trace st ++ evs))
    ∧ slept evs = 5 * cycles + 5 * length (logged WARNING evs)
    ∧ length (shell_commands evs) = 2 * length (logged WARNING evs)
    ∧ 5 * cycles ≤ slept evs ≤ cycles * (5 + 5 * length cm)
    ∧ (later w = None →
       slept evs
       = cycles * (5 + 5 * length (filter (λ entry : string * string,
                                             node_present w entry.1 = false)
                                     cm))).
Proof.
  intros Hnul Hsh.
  destruct (poll_loop_trace w st cycles cm Hnul Hsh)
    as (evs & rebound & H & Hlen & Hr & Hst & Hc & Hz & Hw & _).
  pose proof (cycle_rebinds_bound w cm rebound Hr) as Hb.
  exists evs. split_and!; [exact H| | | | |].
  - by rewrite Hz, Hw, length_fmap.
  - rewrite Hc, Hw, length_fmap. generalize (concat rebound). clear.
    intros l. induction l as [|e l IH]; simpl; lia.
  - lia.
  - rewrite Hz, Hlen in *. nia.
  - intros Hw'. rewrite Hz, Hst by done. unfold missing, dict in *.
    rewrite length_concat_replicate. lia.
Qed.

Lemma poll_cycle_duration_witness :
  ∃ evs,
    poll_loop 3 [("/dev/video0", "1-2:1.0"); ("/dev/video2", "1-3:1.0")]
      sample_world (initial NoFile)
    = (Ret Polling,
       State (cache_file (initial NoFile)) (trace (initial NoFile) ++ evs))
    ∧ slept evs = 5 * 3 + 5 * length (logged WARNING evs)
    ∧ length (shell_commands evs) = 2 * length (logged WARNING evs)
    ∧ 5 * 3 ≤ slept evs
      ≤ 3 * (5 + 5 * length [("/dev/video0", "1-2:1.0");
                             ("/dev/video2", "1-3:1.0")])
    ∧ (later sample_world = None →
       slept evs
       = 3 * (5 + 5 * length (filter (λ entry : string * string,
                                        node_present sample_world entry.1
                                        = false)
                                [("/dev/video0", "1-2:1.0");
                                 ("/dev/video2", "1-3:1.0")]))).
Proof.
  apply (poll_cycle_duration sample_world (initial NoFile) 3).
  - intros entry He. apply list_elem_of_In in He.
    destruct He as [<-|[<-|[]]]; reflexivity.
  - intros k cmd. by rewrite ahead_steady.
Defined.

(** ** What never runs a command *)

Section Calm.
Context {A B : Type}.

Lemma calm_pure (g : world → state → outcome A) :
  calm (λ w st, (g w st, st)).
Proof.
  intros w st. exists (g w st), (cache_file st), [].
  destruct st. simpl. by rewrite app_nil_r.
Qed.

Lemma calm_ret (a : A) : calm (ret a).
Proof. apply (calm_pure (λ _ _, Ret a)). Qed.

Lemma calm_raise e : calm (@raise A e).
Proof. apply (calm_pure (λ _ _, Raise e)). Qed.

Lemma calm_ask (g : world → A) : calm (ask g).
Proof. apply (calm_pure (λ w _, Ret (g w))). Qed.

Lemma calm_lift (o : outcome A) : calm (lift o).
Proof. apply (calm_pure (λ _ _, o)). Qed.

Lemma calm_bind (m : M A) (k : A → M B) :
  calm m → (∀ a, calm (k a)) → calm (bind m k).
Proof.
  intros Hm Hk w st. destruct (Hm w st) as (r & f & e1 & H1 & Hc1 & Hz1).
  unfold bind. rewrite H1. destruct r as [a|e].
  - destruct (Hk a w (State f (trace st ++ e1))) as (r2 & f2 & e2 & H2 & Hc2 & Hz2).
    exists r2, f2, (e1 ++ e2). rewrite H2. simpl.
    rewrite app_assoc, shell_commands_app, slept_app, Hc1, Hc2, Hz1, Hz2. done.
  - by exists (Raise e), f, e1.
Qed.

Lemma calm_try (m : M A) hs :
  calm m → Forall (λ ch : exn_class * (exn → M A), ∀ e, calm (ch.2 e)) hs →
  calm (try_except m hs).
Proof.
  intros Hm Hhs w st. destruct (Hm w st) as (r & f & e1 & H1 & Hc1 & Hz1).
  unfold try_except. rewrite H1. destruct r as [a|e].
  - by exists (Ret a), f, e1.
  - assert (Hh : match find_handler e hs with
                 | Some h => calm (h e)
                 | None => True
                 end).
    { induction Hhs as [|[c h] hs Hc _ IH]; simpl; [done|].
      destruct (isinstance e c); [apply Hc|apply IH]. }
    destruct (find_handler e hs) as [h|].
    + destruct (Hh w (State f (trace st ++ e1))) as (r2 & f2 & e2 & H2 & Hc2 & Hz2).
      exists r2, f2, (e1 ++ e2). rewrite H2. simpl.
      rewrite app_assoc, shell_commands_app, slept_app, Hc1, Hc2, Hz1, Hz2. done.
    + by exists (Raise e), f, e1.
Qed.

End Calm.

Lemma calm_for_each {A B} (l : list B) (body : B → A → M A) s :
  (∀ x s, calm (body x s)) → calm (for_each l body s).
Proof.
  intros Hb. revert s. induction l as [|x l IH]; intros s; simpl.
  - apply calm_ret.
  - apply calm_bind; [apply Hb|apply IH].
Qed.

Lemma calm_emit ev :
  shell_commands [ev] = [] → slept [ev] = 0 → calm (emit ev).
Proof.
  intros Hc Hz w st. by exists (Ret tt), (cache_file st), [ev].
Qed.

Lemma calm_logging l m : calm (logging l m).
Proof. by apply calm_emit. Qed.

Ltac calm_here :=
  intros w [f t]; simpl;
  repeat match goal with
         | |- context [match ?x with _ => _ end] => destruct x; simpl
         end;
  eexists _, _, []; simpl; rewrite app_nil_r; done.

Ltac calm_auto :=
  repeat first
    [ apply calm_ret | apply calm_raise | apply calm_ask | apply calm_lift
    | apply calm_logging | (apply calm_emit; reflexivity)
    | apply calm_bind | apply calm_try | apply calm_for_each
    | match goal with |- Forall _ _ => constructor end | progress intros
    | progress simpl
    | match goal with
      | |- calm (match ?x with _ => _ end) => destruct x
      | |- calm (if ?x then _ else _) => destruct x
      end ].

Lemma calm_os_path_exists p : calm (os_path_exists p).
Proof. unfold os_path_exists. calm_auto. Qed.

Lemma calm_os_path_islink p : calm (os_path_islink p).
Proof. unfold os_path_islink. calm_auto. Qed.

Lemma calm_os_path_realpath p : calm (os_path_realpath p).
Proof. unfold os_path_realpath. calm_auto. Qed.

Lemma calm_os_stat p : calm (os_stat p).
Proof. unfold os_stat. calm_auto. Qed.

Lemma calm_device_exists p : calm (device_exists p).
Proof.
  unfold device_exists.
  apply calm_try; [|calm_auto].
  apply calm_bind; [apply calm_os_path_exists|]. intros present.
  destruct present; simpl; [|apply calm_ret].
  apply calm_bind; [apply calm_os_path_islink|]. intros is_link.
  apply calm_bind.
  - destruct is_link; [|apply calm_ret].
    apply calm_bind; [apply calm_os_path_realpath|]. intros real_path.
    apply calm_os_path_exists.
  - intros ok. destruct ok; simpl; [|apply calm_ret].
    apply calm_bind; [apply calm_os_stat|]. intros _. apply calm_ret.
Qed.

Lemma calm_run_udevadm device check : calm (run_udevadm device check).
Proof.
  unfold run_udevadm, check_returncode.
  apply calm_bind; [by apply calm_emit|]. intros _.
  apply calm_bind; [apply (calm_pure (λ w _, udevadm_info w device))|].
  calm_auto.
Qed.

Lemma calm_get_bus_id device : calm (get_bus_id device).
Proof.
  unfold get_bus_id. apply calm_try; [|calm_auto].
  apply calm_bind; [apply calm_run_udevadm|]. calm_auto.
Qed.

Lemma calm_parse_camera_devices ini_path : calm (parse_camera_devices ini_path).
Proof.
  unfold parse_camera_devices. apply calm_try; [|calm_auto].
  apply calm_bind.
  - unfold config_read. apply calm_bind; [by apply calm_emit|]. intros _.
    apply (calm_pure (λ w _, ini_file w ini_path)).
  - intros cfg. apply calm_bind; [|calm_auto].
    destruct (config_section "plugin" cfg); [|apply calm_ret].
    apply calm_for_each. intros entry devices. unfold parse_entry. calm_auto.
Qed.

Lemma calm_load_cache : calm load_cache.
Proof.
  unfold load_cache. apply calm_bind; [|calm_auto].
  apply calm_try; [|calm_auto].
  apply calm_bind.
  - unfold cache_file_exists. apply calm_bind; [by apply calm_emit|].
    intros _. calm_here.
  - intros present. destruct present; [|apply calm_ret].
    apply calm_bind; [|calm_auto].
    unfold read_cache_file. apply calm_bind; [by apply calm_emit|].
    intros _. calm_here.
Qed.

Lemma calm_save_cache c : calm (save_cache c).
Proof.
  unfold save_cache. apply calm_try; [|calm_auto].
  unfold write_cache_file. apply calm_bind; [by apply calm_emit|].
  intros _ w [f t]. destruct (cache_write_error w); simpl;
    eexists _, _, []; simpl; rewrite app_nil_r; done.
Qed.

Lemma calm_resolve device l : calm (resolve device l).
Proof.
  unfold resolve. apply calm_bind; [apply calm_device_exists|].
  intros present. destruct present.
  - apply calm_bind; [apply calm_get_bus_id|]. calm_auto.
  - calm_auto.
Qed.

Lemma calm_build_camera_map : calm build_camera_map.
Proof.
  unfold build_camera_map.
  apply calm_bind; [apply calm_parse_camera_devices|]. intros devices.
  apply calm_bind; [apply calm_load_cache|]. intros cache0.
  apply calm_bind; [apply calm_for_each; intros; apply calm_resolve|].
  intros l. apply calm_bind; [|calm_auto].
  destruct (cache_updated l); [apply calm_save_cache|apply calm_ret].
Qed.

Lemma calm_show_status entry u : calm (show_status entry u).
Proof.
  unfold show_status. simpl.
  apply calm_bind; [apply calm_device_exists|]. intros present.
  apply calm_bind; [apply calm_os_path_islink|]. intros is_link.
  destruct is_link; [|apply calm_logging].
  apply calm_try; [|calm_auto].
  apply calm_bind; [apply calm_os_path_realpath|]. calm_auto.
Qed.

Lemma calm_test_mode : calm test_mode.
Proof.
  unfold test_mode.
  do 4 (apply calm_bind; [apply calm_logging|]; intros _).
  apply calm_bind; [apply calm_parse_camera_devices|]. intros devices.
  destruct devices; [apply calm_logging|].
  do 2 (apply calm_bind; [apply calm_logging|]; intros _).
  apply calm_bind; [apply calm_build_camera_map|]. intros cm.
  destruct cm; [apply calm_logging|].
  do 3 (apply calm_bind; [apply calm_logging|]; intros _).
  apply calm_bind; [apply calm_for_each; intros; apply calm_show_status|].
  calm_auto.
Qed.


Lemma runs_ret_at {A} w f t (a : A) : runs (ret a) w (State f t) a f [].
Proof. unfold runs, ret. simpl. by rewrite app_nil_r. Qed.

Lemma runs_emit_here w st ev : runs (emit ev) w st tt (cache_file st) [ev].
Proof. done. Qed.

Lemma runs_logging_at w f t l m :
  runs (logging l m) w (State f t) tt f [Log l m].
Proof. done. Qed.

Ltac run_step H := eapply runs_bind; [H|]; cbv beta.

Ltac run_log := run_step ltac:(apply runs_logging_at).

(** ** Test mode *)

Lemma show_status_runs w st entry :
  ∃ evs, runs (show_status entry tt) w st tt (cache_file st) evs ∧ saves evs = [].
Proof.
  destruct (device_exists_runs w st entry.1) as (e1 & H1 & Hs1 & _).
  unfold runs in H1. unfold show_status, runs, bind. rewrite H1.
  unfold_os. simpl.
  destruct (path_islink w entry.1); simpl;
    eexists; (split; [frame_trace|]); rewrite saves_app, Hs1; done.
Qed.

Lemma status_loop_runs w st (cm : dict) :
  ∃ evs,
    runs (for_each cm show_status tt) w st tt (cache_file st) evs
    ∧ saves evs = [].
Proof.
  revert st. induction cm as [|entry cm IH]; intros st.
  - exists []. split; [apply runs_ret|done].
  - destruct (show_status_runs w st entry) as (e1 & H1 & Hs1).
    destruct (IH (State (cache_file st) (trace st ++ e1))) as (e2 & H2 & Hs2).
    exists (e1 ++ e2). split.
    + simpl. eapply runs_bind; [exact H1|]. destruct (tt). exact H2.
    + by rewrite saves_app, Hs1, Hs2.
Qed.

Lemma test_mode_runs w st :
  ∃ evs,
    runs test_mode w st tt
      (match configured w with
       | [] => cache_file st
       | _ => final_file w (cache_file st)
       end) evs
    ∧ saves evs
      = match configured w with
        | [] => []
        | _ => if cache_updated (final_locals w (cache_file st))
               then [cache (final_locals w (cache_file st))] else []
        end.
Proof.
  destruct st as [f t]. unfold test_mode. cbn [cache_file].
  destruct (parse_camera_devices_runs w
              (State f ((((t ++ [Log INFO MsgRule]) ++ [Log INFO MsgTestTitle])
                         ++ [Log INFO MsgRule]) ++ [Log INFO MsgTestParsing])))
    as (ep & Hp & Hsp & _). cbn [cache_file trace] in Hp.
  destruct (configured w) as [|d ds] eqn:Ec.
  - eexists. split.
    + do 4 run_log. run_step ltac:(exact Hp). apply runs_logging_at.
    + rewrite !saves_app, Hsp. done.
  - set (t1 := (((((t ++ [Log INFO MsgRule]) ++ [Log INFO MsgTestTitle])
                  ++ [Log INFO MsgRule]) ++ [Log INFO MsgTestParsing]) ++ ep)
                ++ [Log INFO (MsgTestParsed (length (d :: ds)))]).
    destruct (build_camera_map_runs w (State f (t1 ++ [Log INFO MsgTestBuilding])))
      as (eb & Hb & Hsb & _). cbn [cache_file trace] in Hb, Hsb.
    destruct (camera_map (final_locals w f)) as [|entry cm] eqn:Ecm.
    + eexists. split.
      * do 4 run_log. run_step ltac:(exact Hp). do 2 run_log.
        run_step ltac:(exact Hb). apply runs_logging_at.
      * rewrite !saves_app, Hsp, Hsb. simpl. by rewrite !app_nil_r.
    + destruct (status_loop_runs w
                  (State (final_file w f)
                     (((((t1 ++ [Log INFO MsgTestBuilding]) ++ eb)
                        ++ [Log INFO (MsgTestMapped (length (entry :: cm)))])
                       ++ [Log INFO MsgTestStatusHeader])
                      ++ [Log INFO MsgDashes]))
                  (entry :: cm)) as (es & Hss & Hses).
      cbn [cache_file trace] in Hss.
      eexists. split.
      * do 4 run_log. run_step ltac:(exact Hp). do 2 run_log.
        run_step ltac:(exact Hb). do 3 run_log.
        run_step ltac:(exact Hss). do 2 run_log. apply runs_logging_at.
      * rewrite !saves_app, Hsp, Hsb, Hses. simpl. by rewrite !app_nil_r.
Qed.

Lemma calm_setup_logging : calm setup_logging.
Proof. unfold setup_logging. calm_auto. Qed.

Lemma calm_main_test argv cycles : "--test" ∈ argv → calm (main argv cycles).
Proof.
  intros Hargv. unfold main. rewrite decide_True by done.
  apply calm_bind; [apply calm_setup_logging|]. intros _.
  apply calm_bind; [apply calm_test_mode|]. intros _. apply calm_ret.
Qed.

Lemma setup_logging_runs w st :
  log_file_error w = None →
  runs setup_logging w st tt (cache_file st) [Sys ConfigureLogging].
Proof.
  intros Hlog. unfold runs, setup_logging, bind, emit, ask. simpl.
  by rewrite Hlog.
Qed.

(** X16. Test mode only inspects: with [--test] on the command line
    [main] never runs a shell command and never sleeps, whatever is
    missing and however it ends.  When the log file can be opened it
    returns without entering the poll loop.  It is not read-only though:
    when at least one device is configured it builds the camera map and
    so rewrites the cache file exactly as a monitoring start would; with
    no device configured the cache file is left alone. *)
Theorem test_mode_never_rebinds w st argv cycles :
  "--test" ∈ argv →
  ∃ r f evs,
    main argv cycles w st = (r, State f (trace st ++ evs))
    ∧ shell_commands evs = []
    ∧ slept evs = 0
    ∧ (log_file_error w = None →
       r = Ret Returned
       ∧ f = match configured w with
             | [] => cache_file st
             | _ => final_file w (cache_file st)
             end
       ∧ saves evs
         = match configured w with
           | [] => []
           | _ => if cache_updated (final_locals w (cache_file st))
                  then [cache (final_locals w (cache_file st))] else []
           end).
Proof.
  intros Hargv.
  destruct (calm_main_test argv cycles Hargv w st) as (r & f & evs & H & Hc & Hz).
  exists r, f, evs. split_and!; [exact H|exact Hc|exact Hz|].
  intros Hlog.
  destruct (test_mode_runs w (State (cache_file st)
                                (trace st ++ [Sys ConfigureLogging])))
    as (et & Ht & Hst). cbn [cache_file trace] in Ht, Hst.
  assert (Hrun : runs (main argv cycles) w st Returned
                   (match configured w with
                    | [] => cache_file st
                    | _ => final_file w (cache_file st)
                    end)
                   ([Sys ConfigureLogging] ++ et ++ [])).
  { unfold main. rewrite decide_True by done.
    eapply runs_bind; [by apply setup_logging_runs|]. cbv beta.
    eapply runs_bind; [exact Ht|]. apply runs_ret_at. }
  unfold runs in Hrun. rewrite Hrun in H. injection H as <- <- He.
  apply app_inv_head in He as <-.
  split_and!; [done|done|].
  simpl. by rewrite saves_app, Hst, app_nil_r.
Qed.

Lemma test_mode_never_rebinds_witness :
  ∃ r f evs,
    main ["--test"] 7 sample_world (initial sample_cache)
    = (r, State f (trace (initial sample_cache) ++ evs))
    ∧ shell_commands evs = []
    ∧ slept evs = 0
    ∧ (log_file_error sample_world = None →
       r = Ret Returned
       ∧ f = match configured sample_world with
             | [] => cache_file (initial sample_cache)
             | _ => final_file sample_world (cache_file (initial sample_cache))
             end
       ∧ saves evs
         = match configured sample_world with
           | [] => []
           | _ => if cache_updated
                       (final_locals sample_world
                          (cache_file (initial sample_cache)))
                  then [cache (final_locals sample_world
                                 (cache_file (initial sample_cache)))]
                  else []
           end).
Proof.
  apply (test_mode_never_rebinds sample_world (initial sample_cache) ["--test"] 7).
  apply list_elem_of_here.
Defined.

(** ** Monitoring, end to end *)











(** A rebind that works.  [/dev/video2] is missing at startup and when
    the first poll cycle looks, and it is back, 25 moments after the
    start, when the second and the third cycle look: it is rebound once
    and then left alone. *)
Example rebound_camera_is_left_alone :
  ∃ st',
    main [] 3 (followed_by 25 sample_world plugged_world) (initial sample_cache)
    = (Ret Polling, st')
    ∧ shell_commands (trace st')
      = [unbind_command "1-3:1.0"; bind_command "1-3:1.0"]
    ∧ slept (trace st') = 20.
Proof. eexists. split_and!; vm_compute; reflexivity. Qed.

(** A camera that stays away is rebound in every cycle. *)
Example missing_camera_is_rebound_every_cycle :
  ∃ st',
    main [] 3 sample_world (initial sample_cache) = (Ret Polling, st')
    ∧ shell_commands (trace st')
      = [unbind_command "1-3:1.0"; bind_command "1-3:1.0";
         unbind_command "1-3:1.0"; bind_command "1-3:1.0";
         unbind_command "1-3:1.0"; bind_command "1-3:1.0"]
    ∧ slept (trace st') = 30.
Proof. eexists. split_and!; vm_compute; reflexivity. Qed.

(** ** Rebinding, probing and querying: what is logged and what is not *)


(** X19. The existence check is silent and cheap: it never logs, not even
    when [os.stat] fails, never runs a command, sleeps or writes; a path
    that does not exist costs the one [os.path.exists] probe, and the
    link target is resolved for symbolic links only. *)
Theorem device_exists_is_silent w st p :
  ∃ b evs,
    device_exists p w st = (Ret b, State (cache_file st) (trace st ++ evs))
    ∧ (∀ lv, logged lv evs = [])
    ∧ shell_commands evs = [] ∧ slept evs = 0 ∧ saves evs = []
    ∧ head evs = Some (Sys (PathExists p))
    ∧ (path_exists w p = false → evs = [Sys (PathExists p)])
    ∧ (In (Sys (RealPath p)) evs → path_islink w p = true).
Proof.
  unfold device_exists. unfold_os. simpl.
  destruct (path_exists w p) eqn:E1; simpl;
    [destruct (path_islink w p) eqn:E2; simpl;
     [destruct (path_exists w (path_realpath w p)) eqn:E3; simpl|];
     try (destruct (path_stat w p) as [[]|] eqn:E4; simpl)|];
    eexists; eexists; (split; [frame_trace|]);
    (split; [by intros []|]); split_and!; try done;
    simpl; intros Hin;
    repeat (destruct Hin as [Hin|Hin]; [discriminate Hin|]); done.
Qed.

(** X20. [get_bus_id] never raises and reports every failure exactly
    once: a successful extraction logs nothing; a [udevadm] that exits
    with a non-zero status or cannot be run logs one error; an answer
    without a bus id logs one warning. *)
Theorem get_bus_id_logs_each_failure_once w st device :
  ∃ r evs,
    get_bus_id device w st = (Ret r, State (cache_file st) (trace st ++ evs))
    ∧ head evs = Some (Sys (Udevadm device))
    ∧ match r with
      | Some _ => logged WARNING evs = [] ∧ logged ERROR evs = []
      | None =>
          match udevadm_info w device with
          | Ret (0%Z, out) =>
              logged WARNING evs
              = [MsgNoBusIdInPath
                   (String.string_of_list_ascii
                      (Re.strip (String.list_ascii_of_string out)))]
              ∧ logged ERROR evs = []
          | Ret (rc, _) =>
              logged WARNING evs = []
              ∧ logged ERROR evs
                = [MsgBusIdError device (CalledProcessError rc)]
          | Raise e =>
              logged WARNING evs = []
              ∧ logged ERROR evs
                = [if isinstance e ClsCalledProcessError
                   then MsgBusIdError device e
                   else MsgBusIdUnexpected device e]
          end
      end.
Proof.
  unfold get_bus_id. unfold_os. simpl.
  destruct (udevadm_info w device) as [[rc out]|e]; simpl.
  - destruct rc as [|rc|rc]; simpl.
    + destruct (Re.search_bus_id _); simpl;
        eexists _, _; (split; [frame_trace|]); quiet.
    + eexists _, _; (split; [frame_trace|]); quiet.
    + eexists _, _; (split; [frame_trace|]); quiet.
  - destruct e; simpl; eexists _, _; (split; [frame_trace|]); quiet.
Qed.

(** ** The device token: round trip *)

Lemma span_len_run cls p post :
  Forall (λ a, cls a = true) p →
  match post with [] => True | c :: _ => cls c = false end →
  Re.span_len cls (p ++ post) = length p.
Proof.
  intros Hp Hpost. destruct post as [|c post].
  - rewrite app_nil_r. induction Hp as [|a p Ha _ IH]; simpl; [done|].
    by rewrite Ha, IH.
  - by apply ReFacts.span_len_delim.
Qed.

Lemma terminated_stops post :
  terminated post →
  match post with [] => True | c :: _ => Re.is_path_char c = false end.
Proof.
  destruct post as [|c post]; [done|]. simpl. unfold Re.is_path_char.
  intros [->| ->]; [done|]. by rewrite orb_true_r.
Qed.

Lemma path_run_unique p post p0 post0 :
  path_text p → terminated post → path_text p0 → terminated post0 →
  p ++ post = p0 ++ post0 → p = p0.
Proof.
  intros [_ Hp] Hpost [_ Hp0] Hpost0 Heq.
  pose proof (span_len_run _ _ _ Hp (terminated_stops _ Hpost)) as H1.
  pose proof (span_len_run _ _ _ Hp0 (terminated_stops _ Hpost0)) as H2.
  rewrite Heq, H2 in H1.
  apply (f_equal (take (length p))) in Heq.
  rewrite take_app_length, <- H1, take_app_length in Heq. done.
Qed.

Lemma device_search_round_trip pre p post :
  Forall (λ c, c ≠ "="%char) pre → path_text p → terminated post →
  Re.search_device (pre ++ device_key ++ p ++ post) = Some p.
Proof.
  intros Hpre Hp Hpost.
  pose proof (search_device_first_token (pre ++ device_key ++ p ++ post)) as H.
  destruct (Re.search_device _) as [p0|].
  - destruct H as (pre0 & post0 & Heq & Hp0 & Hpost0 & Hfirst).
    pose proof (Hfirst pre p post eq_refl Hp) as Hle.
    assert (Hge : length pre ≤ length pre0).
    { destruct (decide (length pre ≤ length pre0)) as [|Hlt]; [done|]. exfalso.
      assert (Hno : Forall (λ c, c ≠ "="%char)
                      (pre ++ String.list_ascii_of_string "device")).
      { apply Forall_app. split; [done|]. repeat constructor; discriminate. }
      assert (Hat : (pre ++ device_key ++ p ++ post) !! (length pre0 + 6)
                    = Some "="%char).
      { rewrite Heq. rewrite lookup_app_r by lia.
        replace (length pre0 + 6 - length pre0) with 6 by lia. done. }
      change device_key with (String.list_ascii_of_string "device" ++ ["="%char])
        in Hat.
      rewrite <- (app_assoc _ ["="%char]), (app_assoc pre) in Hat.
      rewrite lookup_app_l in Hat by (rewrite length_app; simpl; lia).
      apply list_elem_of_lookup_2 in Hat.
      by apply (proj1 (Forall_forall _ _) Hno) in Hat. }
    assert (Hpre0 : pre0 = pre).
    { apply (f_equal (take (length pre))) in Heq.
      rewrite take_app_length in Heq.
      replace (length pre) with (length pre0) in Heq by lia.
      by rewrite take_app_length in Heq. }
    subst pre0. apply app_inv_head in Heq. apply app_inv_head in Heq.
    f_equal. symmetry. by apply (path_run_unique p post p0 post0).
  - exfalso. by apply (H pre p post).
Qed.

(** X21. Reading back what was written: a camera entry whose value is
    [<anything without "="> device=<path><end, whitespace or !>...] gives
    exactly [<path>]; an entry with any other key gives nothing. *)
Theorem device_token_round_trip key pre p post :
  Forall (λ c, c ≠ "="%char) pre → path_text p → terminated post →
  extract_path
    (key, String.string_of_list_ascii (pre ++ device_key ++ p ++ post))
  = if startswith key "camera"
    then Some (String.string_of_list_ascii p) else None.
Proof.
  intros Hpre Hp Hpost. unfold extract_path. cbn [fst snd].
  destruct (startswith key "camera"); [|done].
  rewrite String.list_ascii_of_string_of_list_ascii.
  by rewrite device_search_round_trip.
Qed.

Lemma device_token_round_trip_witness :
  extract_path
    ("camera_front",
     String.string_of_list_ascii
       (String.list_ascii_of_string "v4l2src " ++ device_key
        ++ String.list_ascii_of_string "/dev/video4"
        ++ String.list_ascii_of_string " ! videoconvert"))
  = if startswith "camera_front" "camera"
    then Some (String.string_of_list_ascii
                 (String.list_ascii_of_string "/dev/video4"))
    else None.
Proof.
  apply (device_token_round_trip "camera_front"
           (String.list_ascii_of_string "v4l2src ")
           (String.list_ascii_of_string "/dev/video4")
           (String.list_ascii_of_string " ! videoconvert")).
  - repeat constructor; discriminate.
  - split; [discriminate|]. repeat constructor.
  - simpl. left. reflexivity.
Defined.
